(** * gfxOS2Platform: glyph-coverage resolver and off-screen surface allocator

    A shallow embedding of [gfx/thebes/gfxOS2Platform.cpp]:
    - [CreateOffscreenSurface] picks the surface class from the byte size
      of the bitmap;
    - [UpdateFontList] refreshes the font catalog and re-initialises the set
      of codepoints known to have no font;
    - [FindFontForChar] searches the installed families for a face that has
      a glyph for a codepoint, remembering the codepoints no font covers.

    The collaborators (fontconfig utilities, the font cache, cairo's face
    locking, FreeType's charmap lookup) are taken as a record of functions;
    every call made to them is written to a log kept next to the platform
    object, so that statements about "no catalog call" or "lock released"
    are statements about that log. *)

From stdpp Require Import base gmap sets list strings.
From Stdlib Require Import ZArith Lia.

Local Open Scope Z_scope.

(** ** Machine integers *)

(** [int] is 32 bits wide on this platform. *)
Definition INT_MIN : Z := - 2 ^ 31.
Definition INT_MAX : Z := 2 ^ 31 - 1.

(** Two's complement wrap-around of a mathematical integer into [int]. *)
Definition wrap_int (z : Z) : Z := (z + 2 ^ 31) mod 2 ^ 32 - 2 ^ 31.

(** [a * b] on [int] operands; where the exact product does not fit the
    language leaves the result open, the model takes the wrapped product. *)
Definition int_mul (a b : Z) : Z := wrap_int (a * b).

(** ** Surfaces *)

Inductive gfxContentType : Type :=
| CONTENT_COLOR
| CONTENT_ALPHA
| CONTENT_COLOR_ALPHA.

Inductive gfxImageFormat : Type :=
| ImageFormatARGB32
| ImageFormatRGB24
| ImageFormatA8
| ImageFormatA1
| ImageFormatRGB16_565
| ImageFormatUnknown.

Record gfxIntSize : Type := mkSize { width : Z; height : Z }.

(** The two surface classes [CreateOffscreenSurface] can construct. *)
Inductive gfxASurface : Type :=
| gfxImageSurface (aSize : gfxIntSize) (format : gfxImageFormat)
| gfxOS2Surface (aSize : gfxIntSize) (format : gfxImageFormat).

Inductive BackendChoice : Type := Lightweight | Native.

Definition backend (surf : gfxASurface) : BackendChoice :=
  match surf with
  | gfxImageSurface _ _ => Lightweight
  | gfxOS2Surface _ _ => Native
  end.

Section Surface.
(** [gfxPlatform::OptimalFormatForContent] and cairo's
    [cairo_format_stride_for_width] are library functions. *)
Variable OptimalFormatForContent : gfxContentType → gfxImageFormat.
Variable cairo_format_stride_for_width : gfxImageFormat → Z → Z.


Definition CreateOffscreenSurface
    (aSize : gfxIntSize) (contentType : gfxContentType) : gfxASurface :=
  let format := OptimalFormatForContent contentType in
  let stride := cairo_format_stride_for_width format (width aSize) in
  if int_mul stride (height aSize) <=? 4096
  then gfxImageSurface aSize format
  else gfxOS2Surface aSize format.
End Surface.

(** Stand-ins for the two library functions, used to run the allocator:
    four bytes per pixel for the colour formats, one for [A8]. *)
Definition sample_format (c : gfxContentType) : gfxImageFormat :=
  match c with
  | CONTENT_COLOR => ImageFormatRGB24
  | CONTENT_ALPHA => ImageFormatA8
  | CONTENT_COLOR_ALPHA => ImageFormatARGB32
  end.

Definition sample_stride (f : gfxImageFormat) (w : Z) : Z :=
  match f with
  | ImageFormatARGB32 | ImageFormatRGB24 => 4 * w
  | ImageFormatRGB16_565 => 4 * ((2 * w + 3) / 4)
  | ImageFormatA8 => 4 * ((w + 3) / 4)
  | ImageFormatA1 => 4 * ((w + 31) / 32)
  | ImageFormatUnknown => -1
  end.

(** ** The set of codepoints with no font *)

(** Modelled from the spec: the bit-set class of the member
    [mCodepointsWithNoFonts] is declared in a header outside this file; the
    model is a finite set of codepoints with the operations the platform code
    calls on it ([test], [set], [SetRange], [reset]). A freshly constructed
    set has no bit set. *)
Module BitSet.
Definition empty : gset N := ∅.

Definition test (s : gset N) (c : N) : bool := bool_decide (c ∈ s).

Definition set (s : gset N) (c : N) : gset N := {[ c ]} ∪ s.

(** The codepoints [aStart], [aStart + 1], ..., [aEnd]. *)
Definition range (aStart aEnd : N) : list N :=
  (λ i : nat, (aStart + N.of_nat i)%N) <$> seq 0 (N.to_nat (aEnd + 1 - aStart)).

Definition SetRange (s : gset N) (aStart aEnd : N) : gset N :=
  s ∪ list_to_set (range aStart aEnd).

Definition reset (s : gset N) : gset N := ∅.
End BitSet.

(** ** Fonts, faces and the collaborators *)

Inductive nsresult : Type :=
| NS_OK
| NS_ERROR (code : N).

Definition NS_SUCCEEDED (rv : nsresult) : bool :=
  match rv with NS_OK => true | NS_ERROR _ => false end.

Record gfxFontStyle : Type := mkStyle {
  language : string;      (* the language group the style asks for *)
  attributes : N          (* weight, slant, size: opaque here *)
}.

Record gfxOS2Font : Type := mkFont {
  GetName : string;
  GetStyle : gfxFontStyle
}.

#[global] Instance gfxFontStyle_eq_dec : EqDecision gfxFontStyle.
Proof. solve_decision. Defined.

#[global] Instance gfxOS2Font_eq_dec : EqDecision gfxOS2Font.
Proof. solve_decision. Defined.

(** A FreeType face: the selected charmap, when there is one, maps a
    codepoint to a glyph index, 0 meaning "no glyph". *)
Record FT_FaceRec : Type := mkFace {
  charmap : option (N → N)
}.

Definition FT_Get_Char_Index (face : FT_FaceRec) (charcode : N) : N :=
  match charmap face with
  | Some cmap => cmap charcode
  | None => 0%N
  end.

Record Collaborators : Type := mkCollaborators {
  (* gfxFontconfigUtils::GetFontList(aLangGroup, aGenericFamily, aListOfFonts) *)
  fc_GetFontList : string → string → nsresult * list string;
  (* gfxFontconfigUtils::UpdateFontList() *)
  fc_UpdateFontList : nsresult;
  (* gfxOS2Font::GetOrMakeFont(aName, aStyle); [None] is the null pointer *)
  GetOrMakeFont : string → gfxFontStyle → option gfxOS2Font;
  (* cairo_ft_scaled_font_lock_face(font->CairoScaledFont()) *)
  cairo_ft_scaled_font_lock_face : gfxOS2Font → option FT_FaceRec
}.

(** The calls that leave the platform object. *)
Inductive Event : Type :=
| Ev_cairo_os2_init
| Ev_GetFontconfigUtils
| Ev_GetFontList (aLangGroup aGenericFamily : string)
| Ev_UpdateFontList
| Ev_GetOrMakeFont (aName : string) (aStyle : gfxFontStyle)
| Ev_lock_face (font : gfxOS2Font) (locked : bool)
| Ev_unlock_face (font : gfxOS2Font)
| Ev_Get_Char_Index (font : gfxOS2Font) (charcode : N).

(** The platform object together with the log of its outgoing calls. *)
Record State : Type := mkState {
  mCodepointsWithNoFonts : gset N;
  calls : list Event
}.

(** ** A state monad for the member functions *)

Definition M (A : Type) : Type := State → A * State.

Definition ret {A} (a : A) : M A := λ st, (a, st).

Definition bind {A B} (m : M A) (k : A → M B) : M B :=
  λ st, let (a, st') := m st in k a st'.

Notation "'do' x <- m ; k" := (bind m (λ x, k))
  (at level 10, x name, m at level 100, k at level 200).
Notation "'exec' m ; k" := (bind m (λ _, k))
  (at level 10, m at level 100, k at level 200).

Definition emit (e : Event) : M unit :=
  λ st, (tt, mkState (mCodepointsWithNoFonts st) (calls st ++ [e])).

Definition get_cache : M (gset N) := λ st, (mCodepointsWithNoFonts st, st).

Definition modify_cache (f : gset N → gset N) : M unit :=
  λ st, (tt, mkState (f (mCodepointsWithNoFonts st)) (calls st)).

(** ** The member functions *)

(** The constructor: initialises cairo and fetches the fontconfig utilities
    unless the static pointer [sFontconfigUtils] is already set. It does not
    touch [mCodepointsWithNoFonts], which is default-constructed. *)
Definition gfxOS2Platform_ctor (sFontconfigUtils_set : bool) : State :=
  snd ((exec emit Ev_cairo_os2_init;
        if negb sFontconfigUtils_set
        then emit Ev_GetFontconfigUtils
        else ret tt)
       (mkState BitSet.empty [])).

Section Members.
Variable E : Collaborators.

(** [gfxOS2Platform::GetFontList]: forwards to the fontconfig utilities. *)
Definition GetFontList (aLangGroup aGenericFamily : string)
  : M (nsresult * list string) :=
  exec emit (Ev_GetFontList aLangGroup aGenericFamily);
  ret (fc_GetFontList E aLangGroup aGenericFamily).

(** [gfxOS2Platform::UpdateFontList]. *)
Definition UpdateFontList : M nsresult :=
  exec modify_cache BitSet.reset;
  exec emit Ev_UpdateFontList;
  let rv := fc_UpdateFontList E in
  exec modify_cache (λ s, BitSet.SetRange s 0 0x1f);   (* C0 controls *)
  exec modify_cache (λ s, BitSet.SetRange s 0x7f 0x9f); (* C1 controls *)
  ret rv.

(** The body of the [for] loop of [FindFontForChar], over the entries
    [fontList[i]], [fontList[i+1]], ... still to be visited. [Some font] is
    the [return font.forget()] inside the loop, [None] is falling out of
    the loop. *)
Fixpoint FindFontForChar_loop (aCh : N) (aStyle : gfxFontStyle)
    (entries : list string) : M (option gfxOS2Font) :=
  match entries with
  | [] => ret None
  | name :: rest =>
      exec emit (Ev_GetOrMakeFont name aStyle);
      match GetOrMakeFont E name aStyle with
      | None => FindFontForChar_loop aCh aStyle rest            (* continue *)
      | Some font =>
          let face := cairo_ft_scaled_font_lock_face E font in
          exec emit (Ev_lock_face font (bool_decide (is_Some face)));
          match face with
          | None => FindFontForChar_loop aCh aStyle rest        (* continue *)
          | Some face =>
              match charmap face with
              | None =>
                  exec emit (Ev_unlock_face font);
                  FindFontForChar_loop aCh aStyle rest          (* continue *)
              | Some _ =>
                  exec emit (Ev_Get_Char_Index font aCh);
                  let gid := FT_Get_Char_Index face aCh in
                  if negb (gid =? 0)%N then
                    exec emit (Ev_unlock_face font);
                    ret (Some font)
                  else FindFontForChar_loop aCh aStyle rest
              end
          end
      end
  end.

(** [gfxOS2Platform::FindFontForChar]. The loop starts at index 3. *)
Definition FindFontForChar (aCh : N) (aFont : gfxOS2Font)
  : M (option gfxOS2Font) :=
  do cache <- get_cache;
  if BitSet.test cache aCh then ret None
  else
    do res <- GetFontList (language (GetStyle aFont)) "";
    let (rv, fontList) := res in
    do found <- (if NS_SUCCEEDED rv
                 then FindFontForChar_loop aCh (GetStyle aFont) (drop 3 fontList)
                 else ret None);
    match found with
    | Some font => ret (Some font)
    | None =>
        exec modify_cache (λ s, BitSet.set s aCh);
        ret None
    end.
End Members.

(** ** Sequences of requests made to the platform object *)

Inductive Request : Type :=
| Req_FindFontForChar (E : Collaborators) (aCh : N) (aFont : gfxOS2Font)
| Req_UpdateFontList (E : Collaborators).

Definition is_FindFontForChar (r : Request) : bool :=
  match r with
  | Req_FindFontForChar _ _ _ => true
  | Req_UpdateFontList _ => false
  end.

Definition serve (st : State) (r : Request) : State :=
  match r with
  | Req_FindFontForChar E aCh aFont => snd (FindFontForChar E aCh aFont st)
  | Req_UpdateFontList E => snd (UpdateFontList E st)
  end.

Definition serve_all (rs : list Request) (st : State) : State :=
  foldl serve st rs.

(** ** Reading the log *)

(** The family names handed to [GetOrMakeFont], in call order. *)
Fixpoint looked_up (evs : list Event) : list string :=
  match evs with
  | [] => []
  | Ev_GetOrMakeFont aName _ :: evs' => aName :: looked_up evs'
  | _ :: evs' => looked_up evs'
  end.

(** Locks taken on [font] minus locks given back, over a log. A call of
    [cairo_ft_scaled_font_lock_face] that returns no face holds nothing. *)
Fixpoint locks_held (font : gfxOS2Font) (evs : list Event) : Z :=
  match evs with
  | [] => 0
  | Ev_lock_face f true :: evs' =>
      (if decide (f = font) then 1 else 0) + locks_held font evs'
  | Ev_unlock_face f :: evs' =>
      (if decide (f = font) then -1 else 0) + locks_held font evs'
  | _ :: evs' => locks_held font evs'
  end.

(** ** What it means for a candidate family to cover a codepoint *)

(** The check one loop iteration makes, as a function of the entry. *)
Definition covering (E : Collaborators) (aCh : N) (aStyle : gfxFontStyle)
    (name : string) : option gfxOS2Font :=
  match GetOrMakeFont E name aStyle with
  | None => None
  | Some font =>
      match cairo_ft_scaled_font_lock_face E font with
      | None => None
      | Some face =>
          match charmap face with
          | None => None
          | Some cmap => if (cmap aCh =? 0)%N then None else Some font
          end
      end
  end.

(** The same in the words of the resolver's contract: an instance could be
    obtained for the family, its face could be locked, the face has a
    charmap, and the charmap gives the codepoint a nonzero glyph id. *)
Definition candidate_matches (E : Collaborators) (aCh : N)
    (aStyle : gfxFontStyle) (name : string) (font : gfxOS2Font) : Prop :=
  GetOrMakeFont E name aStyle = Some font ∧
  ∃ face cmap,
    cairo_ft_scaled_font_lock_face E font = Some face ∧
    charmap face = Some cmap ∧
    cmap aCh ≠ 0%N.

(** First match in list order, no other preference. *)
Definition first_match (E : Collaborators) (aCh : N) (aStyle : gfxFontStyle)
    (entries : list string) : option gfxOS2Font :=
  head (omap (covering E aCh aStyle) entries).

(** What the catalog answers for the language of the reference font, and
    the outcome of the search that follows: the first match among the
    entries from index 3 on when the catalog call succeeded. *)
Definition catalog_answer (E : Collaborators) (aFont : gfxOS2Font)
  : nsresult * list string :=
  fc_GetFontList E (language (GetStyle aFont)) "".

Definition search_result (E : Collaborators) (aCh : N) (aFont : gfxOS2Font)
  : option gfxOS2Font :=
  if NS_SUCCEEDED (catalog_answer E aFont).1
  then first_match E aCh (GetStyle aFont) (drop 3 (catalog_answer E aFont).2)
  else None.

(** The control codepoints preset by [UpdateFontList]. *)
Definition is_control (c : N) : Prop :=
  (c ≤ 0x1f)%N ∨ (0x7f ≤ c ≤ 0x9f)%N.

(** ** Sample collaborators *)

Definition western : gfxFontStyle := mkStyle "x-western" 400.
Definition reference_font : gfxOS2Font := mkFont "Helv" western.

(** Every family has an instance and a charmap; only "Times" has a glyph
    for U+0041. The catalog lists three generic entries first. *)
Definition sample_lock_face (f : gfxOS2Font) : option FT_FaceRec :=
  Some (mkFace (Some (λ c,
    if String.eqb (GetName f) "Times" && (c =? 0x41)%N then 7%N else 0%N))).

Definition catalog_ok : Collaborators :=
  mkCollaborators
    (λ _ _, (NS_OK, ["serif"; "sans-serif"; "monospace"; "Arial"; "Times"]%string))
    NS_OK
    (λ name style, Some (mkFont name style))
    sample_lock_face.

(** The same fonts behind a catalog whose calls fail. *)
Definition catalog_down : Collaborators :=
  mkCollaborators
    (λ _ _, (NS_ERROR 0x80004005, []))
    (NS_ERROR 0x80004005)
    (λ name style, Some (mkFont name style))
    sample_lock_face.

(** A catalog that lists the generic entries only. *)
Definition catalog_generic_only : Collaborators :=
  mkCollaborators
    (λ _ _, (NS_OK, ["serif"; "sans-serif"; "monospace"]%string))
    NS_OK
    (λ name style, Some (mkFont name style))
    sample_lock_face.

Definition fresh : State := gfxOS2Platform_ctor false.

(** ** The log of one lookup, as a function of the collaborators *)

(** The calls one run of the candidate loop makes, entry by entry. *)
Fixpoint loop_events (E : Collaborators) (aCh : N) (aStyle : gfxFontStyle)
    (entries : list string) : list Event :=
  match entries with
  | [] => []
  | name :: rest =>
      Ev_GetOrMakeFont name aStyle ::
      match GetOrMakeFont E name aStyle with
      | None => loop_events E aCh aStyle rest
      | Some font =>
          match cairo_ft_scaled_font_lock_face E font with
          | None => Ev_lock_face font false :: loop_events E aCh aStyle rest
          | Some face =>
              Ev_lock_face font true ::
              match charmap face with
              | None => Ev_unlock_face font :: loop_events E aCh aStyle rest
              | Some cmap =>
                  Ev_Get_Char_Index font aCh ::
                  if (cmap aCh =? 0)%N
                  then loop_events E aCh aStyle rest
                  else [Ev_unlock_face font]
              end
          end
      end
  end.

(** The calls of a lookup that does not take the fast path. *)
Definition call_events (E : Collaborators) (aCh : N) (aFont : gfxOS2Font)
  : list Event :=
  Ev_GetFontList (language (GetStyle aFont)) "" ::
  if NS_SUCCEEDED (catalog_answer E aFont).1
  then loop_events E aCh (GetStyle aFont) (drop 3 (catalog_answer E aFont).2)
  else [].

(** The entries the loop reaches: all of them up to and including the first
    one that covers the codepoint. *)
Fixpoint visited (E : Collaborators) (aCh : N) (aStyle : gfxFontStyle)
    (entries : list string) : list string :=
  match entries with
  | [] => []
  | name :: rest =>
      name :: match covering E aCh aStyle name with
              | Some _ => []
              | None => visited E aCh aStyle rest
              end
  end.

(** The entry has an instance whose face could be locked and has a charmap,
    and the charmap maps the codepoint to glyph 0. *)
Definition glyph_missing (E : Collaborators) (aCh : N) (aStyle : gfxFontStyle)
    (name : string) : bool :=
  match GetOrMakeFont E name aStyle with
  | None => false
  | Some font =>
      match cairo_ft_scaled_font_lock_face E font with
      | None => false
      | Some face =>
          match charmap face with
          | None => false
          | Some cmap => (cmap aCh =? 0)%N
          end
      end
  end.

(** How many of the entries are glyph-less in that sense and have [font] as
    their instance. *)
Definition glyph_missing_on (E : Collaborators) (aCh : N)
    (aStyle : gfxFontStyle) (font : gfxOS2Font) (entries : list string) : nat :=
  length (filter (λ name, glyph_missing E aCh aStyle name = true ∧
                          GetOrMakeFont E name aStyle = Some font) entries).

(** The codepoints a sequence of requests looks up. *)
Fixpoint requested (rs : list Request) : list N :=
  match rs with
  | [] => []
  | Req_FindFontForChar _ aCh _ :: rs' => aCh :: requested rs'
  | Req_UpdateFontList _ :: rs' => requested rs'
  end.

(** A catalog with one concrete family after the generic entries. *)
Definition catalog_times_only : Collaborators :=
  mkCollaborators
    (λ _ _, (NS_OK, ["serif"; "sans-serif"; "monospace"; "Times"]%string))
    NS_OK
    (λ name style, Some (mkFont name style))
    sample_lock_face.

(** ** Construction and destruction of the platform object *)

(** The constructor and the destructor, over the process-wide state they
    share: the static pointer [sFontconfigUtils] ([None] is the null pointer)
    and the calls made to cairo and to the fontconfig utilities. *)
Module Lifecycle.

Inductive LibCall : Type :=
| cairo_os2_init
| GetFontconfigUtils
| Shutdown
| cairo_os2_surface_enable_dive (a b : bool)
| cairo_os2_fini.

#[global] Instance LibCall_eq_dec : EqDecision LibCall.
Proof. solve_decision. Defined.

Record Process : Type := mkProcess {
  sFontconfigUtils : option N;
  lib_calls : list LibCall
}.

Inductive Op : Type := Construct | Destroy.

#[global] Instance Op_eq_dec : EqDecision Op.
Proof. solve_decision. Defined.

Section Ops.
(** What [gfxFontconfigUtils::GetFontconfigUtils()] returns. *)
Variable utils : option N.

(** [gfxOS2Platform::gfxOS2Platform()]. *)
Definition ctor (p : Process) : Process :=
  let log := lib_calls p ++ [cairo_os2_init] in
  match sFontconfigUtils p with
  | None => mkProcess utils (log ++ [GetFontconfigUtils])
  | Some u => mkProcess (Some u) log
  end.

(** [gfxOS2Platform::~gfxOS2Platform()]. *)
Definition dtor (p : Process) : Process :=
  mkProcess None
    (lib_calls p ++
       [Shutdown; cairo_os2_surface_enable_dive false false; cairo_os2_fini]).

Definition step (p : Process) (op : Op) : Process :=
  match op with
  | Construct => ctor p
  | Destroy => dtor p
  end.

Definition run (ops : list Op) (p : Process) : Process := foldl step p ops.
End Ops.

(** Occurrences of a call in a log, of an operation in a sequence. *)
Definition count_call (c : LibCall) (log : list LibCall) : nat :=
  length (filter (λ x, x = c) log).

Definition count_op (o : Op) (ops : list Op) : nat :=
  length (filter (λ x, x = o) ops).

End Lifecycle.

(** * Properties *)

(** ** Arithmetic of the footprint *)

Lemma wrap_int_id (z : Z) : INT_MIN ≤ z ≤ INT_MAX → wrap_int z = z.
Proof.
  unfold INT_MIN, INT_MAX, wrap_int. intros Hz.
  rewrite Z.mod_small; lia.
Qed.

Lemma int_mul_exact (a b : Z) : INT_MIN ≤ a * b ≤ INT_MAX → int_mul a b = a * b.
Proof. apply wrap_int_id. Qed.

(** ** The bit set *)

Lemma test_true (s : gset N) (c : N) : BitSet.test s c = true ↔ c ∈ s.
Proof. unfold BitSet.test. apply bool_decide_eq_true. Qed.

Lemma test_false (s : gset N) (c : N) : BitSet.test s c = false ↔ c ∉ s.
Proof. unfold BitSet.test. apply bool_decide_eq_false. Qed.

Lemma test_set (s : gset N) (c d : N) :
  BitSet.test (BitSet.set s c) d = true ↔ d = c ∨ BitSet.test s d = true.
Proof. rewrite !test_true. unfold BitSet.set. set_solver. Qed.

Lemma elem_of_range (a b c : N) : c ∈ BitSet.range a b ↔ (a ≤ c ≤ b)%N.
Proof.
  unfold BitSet.range. rewrite list_elem_of_fmap. split.
  - intros (i & -> & Hi). apply elem_of_seq in Hi. lia.
  - intros Hc. exists (N.to_nat (c - a)). split; [lia|].
    apply elem_of_seq. lia.
Qed.

Lemma test_SetRange (s : gset N) (a b c : N) :
  BitSet.test (BitSet.SetRange s a b) c = true
  ↔ BitSet.test s c = true ∨ (a ≤ c ≤ b)%N.
Proof.
  rewrite !test_true. unfold BitSet.SetRange.
  rewrite elem_of_union, elem_of_list_to_set, elem_of_range. done.
Qed.

Lemma test_reset (s : gset N) (c : N) : BitSet.test (BitSet.reset s) c = false.
Proof. apply test_false. unfold BitSet.reset. set_solver. Qed.

(** ** The candidate loop *)

Lemma looked_up_app (evs1 evs2 : list Event) :
  looked_up (evs1 ++ evs2) = looked_up evs1 ++ looked_up evs2.
Proof.
  induction evs1 as [|e evs1 IH]; [done|].
  destruct e; simpl; by rewrite ?IH.
Qed.

Lemma first_match_cons (E : Collaborators) aCh aStyle name rest :
  first_match E aCh aStyle (name :: rest) =
    match covering E aCh aStyle name with
    | Some font => Some font
    | None => first_match E aCh aStyle rest
    end.
Proof. unfold first_match. simpl. by destruct (covering E aCh aStyle name). Qed.

Section Loop.
Variable E : Collaborators.
Variables (aCh : N) (aStyle : gfxFontStyle).

(** One run of the loop: it returns the first covering entry, leaves the
    set of codepoints alone, only appends to the log, and the families it
    asks [GetOrMakeFont] for are an initial part of its entries. *)
Lemma FindFontForChar_loop_spec (entries : list string) (st : State) :
  ∃ evs,
    FindFontForChar_loop E aCh aStyle entries st =
      (first_match E aCh aStyle entries,
       mkState (mCodepointsWithNoFonts st) (calls st ++ evs)) ∧
    looked_up evs `prefix_of` entries.
Proof.
  revert st. induction entries as [|name rest IH]; intros st.
  - exists []. split; [|done]. destruct st. simpl. unfold ret. simpl.
    by rewrite app_nil_r.
  - rewrite first_match_cons. unfold covering. simpl.
    unfold bind at 1. simpl.
    destruct (GetOrMakeFont E name aStyle) as [font|].
    2:{ destruct (IH (mkState (mCodepointsWithNoFonts st)
                        (calls st ++ [Ev_GetOrMakeFont name aStyle])))
          as (evs & -> & Hpre).
        exists (Ev_GetOrMakeFont name aStyle :: evs). simpl.
        rewrite <- app_assoc. split; [done|]. by apply prefix_cons. }
    unfold bind at 1. simpl.
    destruct (cairo_ft_scaled_font_lock_face E font) as [face|].
    2:{ match goal with |- context [FindFontForChar_loop _ _ _ _ ?s] =>
          destruct (IH s) as (evs & -> & Hpre) end.
        exists (Ev_GetOrMakeFont name aStyle :: Ev_lock_face font false :: evs).
        simpl. rewrite <- !app_assoc. split; [done|]. by apply prefix_cons. }
    unfold FT_Get_Char_Index.
    destruct (charmap face) as [cmap|].
    2:{ unfold bind at 1. simpl.
        match goal with |- context [FindFontForChar_loop _ _ _ _ ?s] =>
          destruct (IH s) as (evs & -> & Hpre) end.
        exists (Ev_GetOrMakeFont name aStyle :: Ev_lock_face font true
                  :: Ev_unlock_face font :: evs).
        simpl. rewrite <- !app_assoc. split; [done|]. by apply prefix_cons. }
    unfold bind at 1. simpl.
    destruct (cmap aCh =? 0)%N; simpl.
    + match goal with |- context [FindFontForChar_loop _ _ _ _ ?s] =>
        destruct (IH s) as (evs & -> & Hpre) end.
      exists (Ev_GetOrMakeFont name aStyle :: Ev_lock_face font true
                :: Ev_Get_Char_Index font aCh :: evs).
      simpl. rewrite <- !app_assoc. split; [done|]. by apply prefix_cons.
    + exists [Ev_GetOrMakeFont name aStyle; Ev_lock_face font true;
              Ev_Get_Char_Index font aCh; Ev_unlock_face font].
      unfold bind, emit, ret. simpl. rewrite <- !app_assoc.
      split; [done|]. apply prefix_cons, prefix_nil.
Qed.

Lemma first_match_Some (entries : list string) (font : gfxOS2Font) :
  first_match E aCh aStyle entries = Some font →
  ∃ (i : nat) (name : string),
    entries !! i = Some name ∧
    covering E aCh aStyle name = Some font ∧
    ∀ (j : nat) (name' : string),
      (j < i)%nat → entries !! j = Some name' →
      covering E aCh aStyle name' = None.
Proof.
  induction entries as [|name rest IH]; [done|].
  rewrite first_match_cons.
  destruct (covering E aCh aStyle name) as [f|] eqn:Hc.
  - intros [= ->]. exists 0%nat, name. split_and!; [done..|]. lia.
  - intros (i & n & Hi & Hn & Hlt)%IH.
    exists (S i), n. split_and!; [done..|].
    intros [|j] name' Hj; simpl; [by intros [= <-]|].
    apply Hlt. lia.
Qed.

Lemma covering_Some (name : string) (font : gfxOS2Font) :
  covering E aCh aStyle name = Some font ↔
  candidate_matches E aCh aStyle name font.
Proof.
  unfold covering, candidate_matches. split.
  - destruct (GetOrMakeFont E name aStyle) as [f|]; [|done].
    destruct (cairo_ft_scaled_font_lock_face E f) as [face|] eqn:Hl; [|done].
    destruct (charmap face) as [cmap|] eqn:Hm; [|done].
    destruct (N.eqb_spec (cmap aCh) 0); [done|].
    intros [= <-]. split; [done|]. by exists face, cmap.
  - intros (-> & face & cmap & -> & -> & Hne).
    by destruct (N.eqb_spec (cmap aCh) 0).
Qed.

Lemma covering_None (name : string) :
  covering E aCh aStyle name = None ↔
  ∀ font, ¬ candidate_matches E aCh aStyle name font.
Proof.
  split.
  - intros Hn font Hm%covering_Some. congruence.
  - intros Hno. destruct (covering E aCh aStyle name) as [f|] eqn:Hc; [|done].
    apply covering_Some in Hc. by destruct (Hno f).
Qed.
End Loop.

(** ** The resolver as a whole *)

Section Resolver.
Variable E : Collaborators.
Variables (aCh : N) (aFont : gfxOS2Font).

(** The fast path: the state, log included, is returned as it was. *)
Lemma FindFontForChar_cached (st : State) :
  BitSet.test (mCodepointsWithNoFonts st) aCh = true →
  FindFontForChar E aCh aFont st = (None, st).
Proof.
  intros Hc. unfold FindFontForChar, bind, get_cache. by rewrite Hc.
Qed.

(** The slow path, in one equation. *)
Lemma FindFontForChar_uncached (st : State) :
  BitSet.test (mCodepointsWithNoFonts st) aCh = false →
  ∃ evs,
    FindFontForChar E aCh aFont st =
      (search_result E aCh aFont,
       mkState
         (match search_result E aCh aFont with
          | Some _ => mCodepointsWithNoFonts st
          | None => BitSet.set (mCodepointsWithNoFonts st) aCh
          end)
         (calls st ++ Ev_GetFontList (language (GetStyle aFont)) "" :: evs)) ∧
    looked_up evs `prefix_of` drop 3 (catalog_answer E aFont).2 ∧
    (NS_SUCCEEDED (catalog_answer E aFont).1 = false → evs = []).
Proof.
  intros Hc. unfold FindFontForChar, bind at 1, get_cache. rewrite Hc.
  unfold search_result, catalog_answer.
  unfold GetFontList, bind, emit, ret, modify_cache. simpl.
  destruct (fc_GetFontList E (language (GetStyle aFont)) "") as [rv fontList].
  simpl. destruct (NS_SUCCEEDED rv).
  - match goal with |- context [FindFontForChar_loop _ _ _ ?l ?s] =>
      destruct (FindFontForChar_loop_spec E aCh (GetStyle aFont) l s)
        as (evs & -> & Hpre) end.
    exists evs. simpl. rewrite <- app_assoc. simpl.
    split_and!; [|done..].
    by destruct (first_match E aCh (GetStyle aFont) (drop 3 fontList)).
  - exists []. simpl. split_and!; [done| apply prefix_nil | done].
Qed.

(** Whatever the path, the set only grows, by at most [aCh]. *)
Lemma FindFontForChar_cache (st : State) :
  let st' := (FindFontForChar E aCh aFont st).2 in
  mCodepointsWithNoFonts st' = mCodepointsWithNoFonts st ∨
  mCodepointsWithNoFonts st' = BitSet.set (mCodepointsWithNoFonts st) aCh.
Proof.
  simpl. destruct (BitSet.test (mCodepointsWithNoFonts st) aCh) eqn:Hc.
  - rewrite FindFontForChar_cached by done. by left.
  - destruct (FindFontForChar_uncached st Hc) as (evs & -> & _). simpl.
    destruct (search_result E aCh aFont); auto.
Qed.

(** A call that returns no font leaves the bit of [aCh] set. *)
Lemma FindFontForChar_None_cached (st : State) :
  (FindFontForChar E aCh aFont st).1 = None →
  BitSet.test (mCodepointsWithNoFonts (FindFontForChar E aCh aFont st).2) aCh
    = true.
Proof.
  destruct (BitSet.test (mCodepointsWithNoFonts st) aCh) eqn:Hc.
  - by rewrite FindFontForChar_cached.
  - destruct (FindFontForChar_uncached st Hc) as (evs & -> & _). simpl.
    destruct (search_result E aCh aFont); [done|].
    intros _. apply test_set. by left.
Qed.
End Resolver.

Lemma FindFontForChar_keeps_bits E aCh aFont (st : State) (c : N) :
  BitSet.test (mCodepointsWithNoFonts st) c = true →
  BitSet.test (mCodepointsWithNoFonts (FindFontForChar E aCh aFont st).2) c = true.
Proof.
  intros Hc. destruct (FindFontForChar_cache E aCh aFont st) as [-> | ->];
    [done|]. apply test_set. by right.
Qed.

(** ** The refresh *)

Lemma UpdateFontList_eq (E : Collaborators) (st : State) :
  UpdateFontList E st =
    (fc_UpdateFontList E,
     mkState (BitSet.SetRange (BitSet.SetRange (BitSet.reset (mCodepointsWithNoFonts st)) 0 0x1f) 0x7f 0x9f)
             (calls st ++ [Ev_UpdateFontList])).
Proof. reflexivity. Qed.

Lemma UpdateFontList_test (E : Collaborators) (st : State) (c : N) :
  BitSet.test (mCodepointsWithNoFonts (UpdateFontList E st).2) c = true
  ↔ is_control c.
Proof.
  rewrite UpdateFontList_eq. simpl. rewrite !test_SetRange, test_reset.
  unfold is_control. split.
  - intros [[?|?]|?]; [done | left; lia | by right].
  - intros [?|?]; [left; right; lia | by right].
Qed.

(** ** Sequences of lookups *)

Lemma serve_all_keeps_bits (rs : list Request) (st : State) (c : N) :
  forallb is_FindFontForChar rs = true →
  BitSet.test (mCodepointsWithNoFonts st) c = true →
  BitSet.test (mCodepointsWithNoFonts (serve_all rs st)) c = true.
Proof.
  revert st. induction rs as [|r rs IH]; intros st Hall Hc; [done|].
  simpl in Hall. apply andb_prop in Hall as [Hr Hrs].
  destruct r as [E aCh aFont|E]; [|done]. simpl.
  apply IH; [done|]. by apply FindFontForChar_keeps_bits.
Qed.

(** ** The surface allocator *)



(** One byte per pixel, one pixel wide: stride 4; 1024 rows fit, 1025 rows
    (4100 bytes) do not. *)
Example CreateOffscreenSurface_one_more_row :
  CreateOffscreenSurface sample_format sample_stride (mkSize 1 1024) CONTENT_ALPHA
    = gfxImageSurface (mkSize 1 1024) ImageFormatA8 ∧
  CreateOffscreenSurface sample_format sample_stride (mkSize 1 1025) CONTENT_ALPHA
    = gfxOS2Surface (mkSize 1 1025) ImageFormatA8.
Proof. split; reflexivity. Qed.

(** With a stride function of one byte per pixel and no padding, 4096 rows of
    one pixel are Lightweight and 4097 rows are Native. *)
Example CreateOffscreenSurface_boundary :
  backend (CreateOffscreenSurface sample_format (λ _ w, w)
             (mkSize 1 4096) CONTENT_ALPHA) = Lightweight ∧
  backend (CreateOffscreenSurface sample_format (λ _ w, w)
             (mkSize 1 4097) CONTENT_ALPHA) = Native.
Proof. split; reflexivity. Qed.

(** ** The resolver: failure of the catalog *)

(** C1 (as stated, refuted). U+0041 is not in the set of a fresh platform
    object, the catalog call fails, no font is returned, and the call sets
    the bit of U+0041. *)
Lemma catalog_failure_sets_bit :
  BitSet.test (mCodepointsWithNoFonts fresh) 0x41 = false ∧
  NS_SUCCEEDED (catalog_answer catalog_down reference_font).1 = false ∧
  (FindFontForChar catalog_down 0x41 reference_font fresh).1 = None ∧
  BitSet.test
    (mCodepointsWithNoFonts
       (FindFontForChar catalog_down 0x41 reference_font fresh).2) 0x41 = true.
Proof. vm_compute. done. Qed.

(** C1 (amended). For a codepoint not in the set, when the catalog call
    fails [FindFontForChar] returns no font, makes no further call, and adds
    the codepoint to the set; every other bit is as before. *)
Theorem FindFontForChar_catalog_failure
    (E : Collaborators) (aCh : N) (aFont : gfxOS2Font) (st : State) :
  BitSet.test (mCodepointsWithNoFonts st) aCh = false →
  NS_SUCCEEDED (catalog_answer E aFont).1 = false →
  FindFontForChar E aCh aFont st =
    (None,
     mkState (BitSet.set (mCodepointsWithNoFonts st) aCh)
             (calls st ++ [Ev_GetFontList (language (GetStyle aFont)) ""])) ∧
  ∀ c, c ≠ aCh →
    BitSet.test (mCodepointsWithNoFonts (FindFontForChar E aCh aFont st).2) c
    = BitSet.test (mCodepointsWithNoFonts st) c.
Proof.
  intros Hc Hfail.
  destruct (FindFontForChar_uncached E aCh aFont st Hc) as (evs & Heq & _ & Hevs).
  rewrite (Hevs Hfail) in Heq. unfold search_result in Heq.
  rewrite Hfail in Heq. split; [done|].
  intros c Hne. rewrite Heq. simpl.
  destruct (BitSet.test (mCodepointsWithNoFonts st) c) eqn:Hb.
  - apply test_set. by right.
  - apply not_true_is_false. intros [?|?]%test_set; congruence.
Qed.

Lemma FindFontForChar_catalog_failure_witness :
  BitSet.test (mCodepointsWithNoFonts fresh) 0x41 = false ∧
  NS_SUCCEEDED (catalog_answer catalog_down reference_font).1 = false ∧
  FindFontForChar catalog_down 0x41 reference_font fresh =
    (None,
     mkState (BitSet.set (mCodepointsWithNoFonts fresh) 0x41)
             (calls fresh ++ [Ev_GetFontList "x-western" ""])).
Proof.
  split_and!; [reflexivity | reflexivity |].
  apply (FindFontForChar_catalog_failure catalog_down 0x41 reference_font fresh);
    reflexivity.
Defined.

(** ** The resolver: face locks *)

(** C2 (evaluated where it fails). The catalog lists "Arial" before "Times";
    "Arial" has a charmap but no glyph for U+0041. The call returns the
    "Times" instance, whose lock is given back, and ends with the lock taken
    on the "Arial" face still held. *)
Theorem FindFontForChar_glyph_missing_keeps_lock :
  let r := FindFontForChar catalog_ok 0x41 reference_font fresh in
  r.1 = Some (mkFont "Times" western) ∧
  locks_held (mkFont "Times" western) (calls r.2) = 0 ∧
  locks_held (mkFont "Arial" western) (calls r.2) = 1 ∧
  Ev_unlock_face (mkFont "Arial" western) ∉ calls r.2.
Proof.
  vm_compute. split_and!; [done..|].
  intros Hin. repeat (apply elem_of_cons in Hin as [Hin|Hin]; [discriminate|]).
  by apply elem_of_nil in Hin.
Qed.

(** The same in general. Over a run of the loop no font ends with more
    unlocks than locks, and an entry whose face has a charmap but no glyph for
    the codepoint leaves its font with a lock that is never given back. *)
Lemma locks_held_app (font : gfxOS2Font) (evs1 evs2 : list Event) :
  locks_held font (evs1 ++ evs2) = locks_held font evs1 + locks_held font evs2.
Proof.
  induction evs1 as [|e evs1 IH]; [done|].
  destruct e as [| | | | |f [|]|f|]; simpl; rewrite ?IH; lia.
Qed.

Lemma FindFontForChar_loop_locks (E : Collaborators) (aCh : N)
    (aStyle : gfxFontStyle) (entries : list string) (st : State) :
  ∃ evs,
    calls (FindFontForChar_loop E aCh aStyle entries st).2 = calls st ++ evs ∧
    (∀ font, 0 ≤ locks_held font evs) ∧
    (∀ name rest font face cmap,
       entries = name :: rest →
       GetOrMakeFont E name aStyle = Some font →
       cairo_ft_scaled_font_lock_face E font = Some face →
       charmap face = Some cmap →
       cmap aCh = 0%N →
       1 ≤ locks_held font evs).
Proof.
  revert st. induction entries as [|name rest IH]; intros st.
  { exists []. simpl. rewrite app_nil_r. split_and!; [done..|]. by intros. }
  simpl. unfold bind at 1. simpl.
  destruct (GetOrMakeFont E name aStyle) as [font|] eqn:Hfont.
  2:{ match goal with |- context [FindFontForChar_loop _ _ _ _ ?s] =>
        destruct (IH s) as (evs & -> & Hnn & _) end.
      exists (Ev_GetOrMakeFont name aStyle :: evs). simpl.
      rewrite <- app_assoc. split_and!; [done..|].
      intros ????? [= <- <-]. congruence. }
  unfold bind at 1. simpl.
  destruct (cairo_ft_scaled_font_lock_face E font) as [face|] eqn:Hface.
  2:{ match goal with |- context [FindFontForChar_loop _ _ _ _ ?s] =>
        destruct (IH s) as (evs & -> & Hnn & _) end.
      exists (Ev_GetOrMakeFont name aStyle :: Ev_lock_face font false :: evs).
      simpl. rewrite <- !app_assoc. split_and!; [done..|].
      intros ????? [= <- <-]. congruence. }
  unfold FT_Get_Char_Index.
  destruct (charmap face) as [cmap|] eqn:Hcmap.
  2:{ unfold bind at 1. simpl.
      match goal with |- context [FindFontForChar_loop _ _ _ _ ?s] =>
        destruct (IH s) as (evs & -> & Hnn & _) end.
      exists (Ev_GetOrMakeFont name aStyle :: Ev_lock_face font true
                :: Ev_unlock_face font :: evs).
      simpl. rewrite <- !app_assoc. split_and!; [done| |].
      - intros f. specialize (Hnn f). destruct (decide (font = f)); lia.
      - intros ????? [= <- <-]. congruence. }
  unfold bind at 1. simpl.
  destruct (N.eqb_spec (cmap aCh) 0) as [Hz|Hnz]; simpl.
  - match goal with |- context [FindFontForChar_loop _ _ _ _ ?s] =>
      destruct (IH s) as (evs & -> & Hnn & _) end.
    exists (Ev_GetOrMakeFont name aStyle :: Ev_lock_face font true
              :: Ev_Get_Char_Index font aCh :: evs).
    simpl. rewrite <- !app_assoc. split_and!; [done| |].
    + intros f. specialize (Hnn f). destruct (decide (font = f)); lia.
    + intros ? ? f ? ? [= <- <-] Hf _ _ _.
      assert (f = font) as -> by congruence.
      specialize (Hnn font). destruct (decide (font = font)); [lia|done].
  - exists [Ev_GetOrMakeFont name aStyle; Ev_lock_face font true;
            Ev_Get_Char_Index font aCh; Ev_unlock_face font].
    unfold bind, emit, ret. simpl. rewrite <- !app_assoc.
    split_and!; [done| |].
    + intros f. destruct (decide (font = f)); lia.
    + intros ? ? f fc cm [= <- <-] Hf Hfc Hcm Hz.
      assert (f = font) as -> by congruence.
      assert (fc = face) as -> by congruence.
      assert (cm = cmap) as -> by congruence. done.
Qed.

(** The branches that do give the lock back: a face without a charmap, and
    a face with a glyph for the codepoint. *)
Example FindFontForChar_no_charmap_unlocks :
  let E := mkCollaborators
             (λ _ _, (NS_OK, ["a"; "b"; "c"; "Symbol"]%string)) NS_OK
             (λ name style, Some (mkFont name style))
             (λ _, Some (mkFace None)) in
  let r := FindFontForChar E 0x41 reference_font fresh in
  r.1 = None ∧ locks_held (mkFont "Symbol" western) (calls r.2) = 0.
Proof. vm_compute. done. Qed.

(** ** The control ranges *)

(** C4 (as stated, refuted). Right after construction of the platform object
    the bit of U+0000, a C0 control, is not set. *)
Lemma ctor_leaves_controls_unset :
  is_control 0x00 ∧
  BitSet.test (mCodepointsWithNoFonts (gfxOS2Platform_ctor false)) 0x00 = false ∧
  BitSet.test (mCodepointsWithNoFonts (gfxOS2Platform_ctor true)) 0x00 = false.
Proof. split; [left; lia | split; reflexivity]. Qed.

(** C4 (amended). After any call of [UpdateFontList], whatever the catalog
    refresh returns, every codepoint in [0x00, 0x1F] or [0x7F, 0x9F] tests
    true, and [FindFontForChar] for it returns no font without any call to a
    collaborator: the state, log included, is unchanged. *)
Theorem controls_preset_after_UpdateFontList
    (E : Collaborators) (st : State) (c : N) :
  is_control c →
  let st' := (UpdateFontList E st).2 in
  BitSet.test (mCodepointsWithNoFonts st') c = true ∧
  ∀ E' aFont, FindFontForChar E' c aFont st' = (None, st').
Proof.
  intros Hc st'.
  assert (Ht : BitSet.test (mCodepointsWithNoFonts st') c = true)
    by by apply UpdateFontList_test.
  split; [done|]. intros E' aFont. by apply FindFontForChar_cached.
Qed.

Lemma controls_preset_after_UpdateFontList_witness :
  is_control 0x9f ∧
  BitSet.test
    (mCodepointsWithNoFonts (UpdateFontList catalog_down fresh).2) 0x9f = true.
Proof.
  assert (Hc : is_control 0x9f) by (right; lia).
  split; [exact Hc|].
  exact (proj1 (controls_preset_after_UpdateFontList catalog_down fresh 0x9f Hc)).
Defined.

(** ** Refresh and reset *)

(** C5 (as stated, refuted). U+0041 is cached as having no font; the catalog
    refresh then fails, and the bit of U+0041 is cleared all the same. *)
Lemma failed_refresh_clears_bits :
  let st := (FindFontForChar catalog_generic_only 0x41 reference_font fresh).2 in
  let r := UpdateFontList catalog_down st in
  ¬ is_control 0x41 ∧
  BitSet.test (mCodepointsWithNoFonts st) 0x41 = true ∧
  NS_SUCCEEDED r.1 = false ∧
  BitSet.test (mCodepointsWithNoFonts r.2) 0x41 = false.
Proof.
  split; [unfold is_control; lia|]. vm_compute. done.
Qed.

(** C5 (amended). Every call of [UpdateFontList] resets the set, whether the
    catalog refresh succeeds or fails: it makes exactly one refresh call,
    returns its result, and leaves set exactly the bits of the two control
    ranges. A call of [FindFontForChar] clears no bit. *)
Theorem UpdateFontList_resets_always (E : Collaborators) (st : State) :
  (UpdateFontList E st).1 = fc_UpdateFontList E ∧
  calls (UpdateFontList E st).2 = calls st ++ [Ev_UpdateFontList] ∧
  (∀ c, BitSet.test (mCodepointsWithNoFonts (UpdateFontList E st).2) c = true
        ↔ is_control c) ∧
  (∀ aCh aFont c,
     BitSet.test (mCodepointsWithNoFonts st) c = true →
     BitSet.test (mCodepointsWithNoFonts (FindFontForChar E aCh aFont st).2) c
       = true).
Proof.
  split_and!; [done | done | |].
  - intros c. apply UpdateFontList_test.
  - intros aCh aFont c. apply FindFontForChar_keeps_bits.
Qed.

(** ** The fast path *)

(** C6. When the bit of [aCh] is set, [FindFontForChar] returns no font and
    the state, log of outgoing calls included, is unchanged. Consequently,
    once a call for [aCh] has returned no font, any later call for [aCh],
    with any reference font and any collaborators, after any number of
    other lookups (and no refresh in between), returns no font without a
    single outgoing call. *)
Theorem FindFontForChar_fast_path
    (E : Collaborators) (aCh : N) (aFont : gfxOS2Font) (st : State) :
  (BitSet.test (mCodepointsWithNoFonts st) aCh = true →
   FindFontForChar E aCh aFont st = (None, st)) ∧
  ((FindFontForChar E aCh aFont st).1 = None →
   ∀ (rs : list Request) (E' : Collaborators) (aFont' : gfxOS2Font),
     forallb is_FindFontForChar rs = true →
     let st' := serve_all rs (FindFontForChar E aCh aFont st).2 in
     FindFontForChar E' aCh aFont' st' = (None, st')).
Proof.
  split; [apply FindFontForChar_cached|].
  intros Hnone rs E' aFont' Hrs st'.
  apply FindFontForChar_cached. subst st'.
  apply serve_all_keeps_bits; [done|].
  by apply FindFontForChar_None_cached.
Qed.

Lemma FindFontForChar_fast_path_witness :
  let cached := (UpdateFontList catalog_ok fresh).2 in
  (BitSet.test (mCodepointsWithNoFonts cached) 0x1b = true ∧
   FindFontForChar catalog_ok 0x1b reference_font cached = (None, cached)) ∧
  (FindFontForChar catalog_ok 0xE000 reference_font fresh).1 = None ∧
  let st' :=
    serve_all [Req_FindFontForChar catalog_ok 0x41 reference_font]
      (FindFontForChar catalog_ok 0xE000 reference_font fresh).2 in
  FindFontForChar catalog_ok 0xE000 (mkFont "Tms Rmn" (mkStyle "ja" 700)) st'
    = (None, st').
Proof.
  intros cached.
  assert (Hbit : BitSet.test (mCodepointsWithNoFonts cached) 0x1b = true)
    by reflexivity.
  assert (Hnone : (FindFontForChar catalog_ok 0xE000 reference_font fresh).1 = None)
    by reflexivity.
  split.
  { split; [exact Hbit|].
    exact (proj1 (FindFontForChar_fast_path catalog_ok 0x1b reference_font cached)
             Hbit). }
  split; [exact Hnone|].
  exact (proj2 (FindFontForChar_fast_path catalog_ok 0xE000 reference_font fresh)
           Hnone [Req_FindFontForChar catalog_ok 0x41 reference_font]
           catalog_ok (mkFont "Tms Rmn" (mkStyle "ja" 700)) eq_refl).
Defined.

(** ** Skipping the generic entries *)

(** X9. The outcome of a lookup depends on the catalog's list only through
    the entries from index 3 on: two catalogs that differ in the first three
    entries give the same result and the same state. *)
Lemma FindFontForChar_ignores_generic_entries
    (E : Collaborators) (rv : nsresult) (l1 l2 : list string)
    (aCh : N) (aFont : gfxOS2Font) (st : State) :
  drop 3 l1 = drop 3 l2 →
  FindFontForChar
    (mkCollaborators (λ _ _, (rv, l1)) (fc_UpdateFontList E)
       (GetOrMakeFont E) (cairo_ft_scaled_font_lock_face E)) aCh aFont st =
  FindFontForChar
    (mkCollaborators (λ _ _, (rv, l2)) (fc_UpdateFontList E)
       (GetOrMakeFont E) (cairo_ft_scaled_font_lock_face E)) aCh aFont st.
Proof.
  intros Hdrop. unfold FindFontForChar, bind, get_cache, GetFontList. simpl.
  by rewrite Hdrop.
Qed.

(** C7. For a codepoint not in the set, the families [FindFontForChar] asks
    [GetOrMakeFont] for are, in order, an initial part of the catalog's list
    from index 3 on: the first three entries are never looked up. When the
    list has fewer than 4 entries the call returns no font, looks up no
    family, and sets the bit of the codepoint. *)
Theorem FindFontForChar_skips_generic_entries
    (E : Collaborators) (aCh : N) (aFont : gfxOS2Font) (st : State) :
  BitSet.test (mCodepointsWithNoFonts st) aCh = false →
  let fontList := (catalog_answer E aFont).2 in
  let r := FindFontForChar E aCh aFont st in
  (∃ evs,
     calls r.2 = calls st ++ Ev_GetFontList (language (GetStyle aFont)) "" :: evs ∧
     looked_up evs `prefix_of` drop 3 fontList) ∧
  ((length fontList < 4)%nat →
   r = (None,
        mkState (BitSet.set (mCodepointsWithNoFonts st) aCh)
                (calls st ++ [Ev_GetFontList (language (GetStyle aFont)) ""])) ∧
   BitSet.test (mCodepointsWithNoFonts r.2) aCh = true).
Proof.
  intros Hc fontList r. split.
  - destruct (FindFontForChar_uncached E aCh aFont st Hc) as (evs & Heq & Hpre & _).
    exists evs. subst r. rewrite Heq. done.
  - intros Hlen.
    assert (Hr : r = (None,
        mkState (BitSet.set (mCodepointsWithNoFonts st) aCh)
                (calls st ++ [Ev_GetFontList (language (GetStyle aFont)) ""]))).
    { subst r fontList. unfold catalog_answer in Hlen.
      unfold FindFontForChar, bind at 1, get_cache. rewrite Hc.
      unfold GetFontList, bind at 1 2, emit, ret. simpl.
      destruct (fc_GetFontList E (language (GetStyle aFont)) "") as [rv l].
      simpl in Hlen. rewrite (drop_ge l 3) by lia.
      by destruct (NS_SUCCEEDED rv). }
    split; [done|]. rewrite Hr. simpl. apply test_set. by left.
Qed.

Lemma FindFontForChar_skips_generic_entries_witness :
  BitSet.test (mCodepointsWithNoFonts fresh) 0x41 = false ∧
  (length (catalog_answer catalog_generic_only reference_font).2 < 4)%nat ∧
  (FindFontForChar catalog_generic_only 0x41 reference_font fresh).1 = None ∧
  BitSet.test
    (mCodepointsWithNoFonts
       (FindFontForChar catalog_generic_only 0x41 reference_font fresh).2) 0x41
    = true.
Proof.
  assert (Hc : BitSet.test (mCodepointsWithNoFonts fresh) 0x41 = false)
    by reflexivity.
  assert (Hlen : (length (catalog_answer catalog_generic_only reference_font).2 < 4)%nat)
    by (vm_compute; lia).
  destruct (proj2 (FindFontForChar_skips_generic_entries
                     catalog_generic_only 0x41 reference_font fresh Hc) Hlen)
    as [Hr Hbit].
  split; [exact Hc|]. split; [exact Hlen|]. split; [|exact Hbit].
  exact (f_equal fst Hr).
Defined.

(** ** First match wins *)

(** C8. When [FindFontForChar] returns a font, the catalog call succeeded and
    the font is the instance of the entry at some index [3 + i] of the
    catalog's list for which an instance could be obtained, its face locked,
    a charmap was present and the charmap gives the codepoint a nonzero glyph
    id; no entry at an index from 3 up to [3 + i] (excluded) matches. *)
Theorem FindFontForChar_first_match
    (E : Collaborators) (aCh : N) (aFont font : gfxOS2Font) (st : State) :
  (FindFontForChar E aCh aFont st).1 = Some font →
  let fontList := (catalog_answer E aFont).2 in
  NS_SUCCEEDED (catalog_answer E aFont).1 = true ∧
  ∃ (i : nat) (name : string),
    fontList !! (3 + i)%nat = Some name ∧
    candidate_matches E aCh (GetStyle aFont) name font ∧
    ∀ (j : nat) (name' : string) (font' : gfxOS2Font),
      (j < i)%nat → fontList !! (3 + j)%nat = Some name' →
      ¬ candidate_matches E aCh (GetStyle aFont) name' font'.
Proof.
  intros Hres fontList.
  destruct (BitSet.test (mCodepointsWithNoFonts st) aCh) eqn:Hc.
  { by rewrite FindFontForChar_cached in Hres. }
  destruct (FindFontForChar_uncached E aCh aFont st Hc) as (evs & Heq & _).
  rewrite Heq in Hres. simpl in Hres. unfold search_result in Hres.
  destruct (NS_SUCCEEDED (catalog_answer E aFont).1); [|done].
  split; [done|].
  apply first_match_Some in Hres as (i & name & Hi & Hcov & Hbefore).
  exists i, name. rewrite lookup_drop in Hi. split_and!; [done| |].
  - by apply covering_Some.
  - intros j name' font' Hlt Hj. apply covering_None.
    apply (Hbefore j); [done|]. by rewrite lookup_drop.
Qed.

Lemma FindFontForChar_first_match_witness :
  (FindFontForChar catalog_ok 0x41 reference_font fresh).1
    = Some (mkFont "Times" western) ∧
  ∃ (i : nat) (name : string),
    (catalog_answer catalog_ok reference_font).2 !! (3 + i)%nat = Some name ∧
    candidate_matches catalog_ok 0x41 western name (mkFont "Times" western).
Proof.
  assert (Hres : (FindFontForChar catalog_ok 0x41 reference_font fresh).1
                 = Some (mkFont "Times" western)) by reflexivity.
  split; [exact Hres|].
  destruct (FindFontForChar_first_match catalog_ok 0x41 reference_font
              (mkFont "Times" western) fresh Hres)
    as (_ & i & name & Hi & Hm & _).
  exists i, name. split; [exact Hi | exact Hm].
Defined.

(** The other direction: with a successful catalog call and a codepoint not
    in the set, the call returns exactly the first match of the entries from
    index 3 on. *)
Lemma FindFontForChar_returns_first_match
    (E : Collaborators) (aCh : N) (aFont : gfxOS2Font) (st : State) :
  BitSet.test (mCodepointsWithNoFonts st) aCh = false →
  NS_SUCCEEDED (catalog_answer E aFont).1 = true →
  (FindFontForChar E aCh aFont st).1 =
    first_match E aCh (GetStyle aFont) (drop 3 (catalog_answer E aFont).2).
Proof.
  intros Hc Hok.
  destruct (FindFontForChar_uncached E aCh aFont st Hc) as (evs & -> & _).
  simpl. unfold search_result. by rewrite Hok.
Qed.

(** ** Monotonicity of the set *)

(** C9. Over any sequence of [FindFontForChar] calls a bit that is set stays
    set; if a bit that was set is found clear after a sequence of requests,
    that sequence contains a call of [UpdateFontList]. *)
Theorem negative_cache_monotonic (rs : list Request) (st : State) (c : N) :
  BitSet.test (mCodepointsWithNoFonts st) c = true →
  (forallb is_FindFontForChar rs = true →
   BitSet.test (mCodepointsWithNoFonts (serve_all rs st)) c = true) ∧
  (BitSet.test (mCodepointsWithNoFonts (serve_all rs st)) c = false →
   ∃ E, Req_UpdateFontList E ∈ rs).
Proof.
  intros Hc. split; [intros Hall; by apply serve_all_keeps_bits|].
  intros Hclear.
  destruct (forallb is_FindFontForChar rs) eqn:Hall.
  - rewrite (serve_all_keeps_bits rs st c Hall Hc) in Hclear. discriminate.
  - clear Hclear Hc. induction rs as [|r rs IH]; [discriminate|].
    simpl in Hall. destruct r as [E aCh aFont|E].
    + simpl in Hall. destruct (IH Hall) as [E' HE'].
      exists E'. apply elem_of_cons. by right.
    + exists E. apply elem_of_cons. by left.
Qed.

Lemma negative_cache_monotonic_witness :
  let st := (UpdateFontList catalog_ok fresh).2 in
  let rs := [Req_FindFontForChar catalog_ok 0xE000 reference_font;
             Req_FindFontForChar catalog_down 0x42 reference_font;
             Req_FindFontForChar catalog_ok 0x41 reference_font] in
  BitSet.test (mCodepointsWithNoFonts st) 0x7f = true ∧
  forallb is_FindFontForChar rs = true ∧
  BitSet.test (mCodepointsWithNoFonts (serve_all rs st)) 0x7f = true.
Proof.
  intros st rs.
  assert (Hc : BitSet.test (mCodepointsWithNoFonts st) 0x7f = true) by reflexivity.
  split; [exact Hc|]. split; [reflexivity|].
  exact (proj1 (negative_cache_monotonic rs st 0x7f Hc) eq_refl).
Defined.

(** The reset does clear bits: after a refresh the bit of U+E000, set by an
    earlier failed search, is clear. *)
Example UpdateFontList_clears_bit :
  let st := (FindFontForChar catalog_ok 0xE000 reference_font fresh).2 in
  BitSet.test (mCodepointsWithNoFonts st) 0xE000 = true ∧
  BitSet.test (mCodepointsWithNoFonts (UpdateFontList catalog_ok st).2) 0xE000
    = false.
Proof. vm_compute. done. Qed.

(** ** The success path *)

(** C10. When [FindFontForChar] returns a font, the set of codepoints with
    no font is the same after the call as before. *)
Theorem FindFontForChar_success_keeps_cache
    (E : Collaborators) (aCh : N) (aFont font : gfxOS2Font) (st : State) :
  (FindFontForChar E aCh aFont st).1 = Some font →
  mCodepointsWithNoFonts (FindFontForChar E aCh aFont st).2
    = mCodepointsWithNoFonts st.
Proof.
  destruct (BitSet.test (mCodepointsWithNoFonts st) aCh) eqn:Hc.
  - by rewrite FindFontForChar_cached.
  - destruct (FindFontForChar_uncached E aCh aFont st Hc) as (evs & -> & _).
    simpl. by destruct (search_result E aCh aFont).
Qed.

Lemma FindFontForChar_success_keeps_cache_witness :
  let st := (FindFontForChar catalog_ok 0xE000 reference_font fresh).2 in
  (FindFontForChar catalog_ok 0x41 reference_font st).1
    = Some (mkFont "Times" western) ∧
  mCodepointsWithNoFonts (FindFontForChar catalog_ok 0x41 reference_font st).2
    = mCodepointsWithNoFonts st.
Proof.
  intros st.
  assert (Hres : (FindFontForChar catalog_ok 0x41 reference_font st).1
                 = Some (mkFont "Times" western)) by reflexivity.
  split; [exact Hres|].
  exact (FindFontForChar_success_keeps_cache catalog_ok 0x41 reference_font
           (mkFont "Times" western) st Hres).
Defined.

(** * Further properties of the resolver *)

(** ** The log of a lookup *)

Lemma FindFontForChar_loop_eq (E : Collaborators) (aCh : N)
    (aStyle : gfxFontStyle) (entries : list string) (st : State) :
  FindFontForChar_loop E aCh aStyle entries st =
    (first_match E aCh aStyle entries,
     mkState (mCodepointsWithNoFonts st)
             (calls st ++ loop_events E aCh aStyle entries)).
Proof.
  revert st. induction entries as [|name rest IH]; intros st.
  { destruct st. simpl. unfold ret. simpl. by rewrite app_nil_r. }
  rewrite first_match_cons. unfold covering. simpl.
  unfold bind at 1. simpl.
  destruct (GetOrMakeFont E name aStyle) as [font|].
  2:{ rewrite IH. simpl. by rewrite <- app_assoc. }
  unfold bind at 1. simpl.
  destruct (cairo_ft_scaled_font_lock_face E font) as [face|].
  2:{ rewrite IH. simpl. by rewrite <- !app_assoc. }
  unfold FT_Get_Char_Index.
  destruct (charmap face) as [cmap|].
  2:{ unfold bind at 1. simpl. rewrite IH. simpl. by rewrite <- !app_assoc. }
  unfold bind at 1. simpl.
  destruct (cmap aCh =? 0)%N; simpl.
  - rewrite IH. simpl. by rewrite <- !app_assoc.
  - unfold bind, emit, ret. simpl. by rewrite <- !app_assoc.
Qed.

Lemma FindFontForChar_eq (E : Collaborators) (aCh : N) (aFont : gfxOS2Font)
    (st : State) :
  BitSet.test (mCodepointsWithNoFonts st) aCh = false →
  FindFontForChar E aCh aFont st =
    (search_result E aCh aFont,
     mkState
       (match search_result E aCh aFont with
        | Some _ => mCodepointsWithNoFonts st
        | None => BitSet.set (mCodepointsWithNoFonts st) aCh
        end)
       (calls st ++ call_events E aCh aFont)).
Proof.
  intros Hc. unfold FindFontForChar, bind at 1, get_cache. rewrite Hc.
  unfold search_result, call_events, catalog_answer.
  unfold GetFontList, bind, emit, ret, modify_cache. simpl.
  destruct (fc_GetFontList E (language (GetStyle aFont)) "") as [rv fontList].
  simpl. destruct (NS_SUCCEEDED rv).
  - rewrite FindFontForChar_loop_eq. simpl. rewrite <- app_assoc. simpl.
    by destruct (first_match E aCh (GetStyle aFont) (drop 3 fontList)).
  - done.
Qed.

Lemma looked_up_loop_events (E : Collaborators) aCh aStyle entries :
  looked_up (loop_events E aCh aStyle entries) = visited E aCh aStyle entries.
Proof.
  induction entries as [|name rest IH]; [done|].
  simpl. f_equal. unfold covering.
  destruct (GetOrMakeFont E name aStyle) as [font|]; [|done].
  destruct (cairo_ft_scaled_font_lock_face E font) as [face|]; [|done].
  simpl. destruct (charmap face) as [cmap|]; [|done].
  simpl. by destruct (cmap aCh =? 0)%N.
Qed.

Lemma visited_miss (E : Collaborators) aCh aStyle entries :
  first_match E aCh aStyle entries = None →
  visited E aCh aStyle entries = entries.
Proof.
  induction entries as [|name rest IH]; [done|].
  rewrite first_match_cons. simpl.
  destruct (covering E aCh aStyle name); [done|].
  intros Hrest. by rewrite IH.
Qed.

Lemma visited_hit (E : Collaborators) aCh aStyle entries font :
  first_match E aCh aStyle entries = Some font →
  ∃ (i : nat) (name : string),
    visited E aCh aStyle entries = take (S i) entries ∧
    entries !! i = Some name ∧
    covering E aCh aStyle name = Some font.
Proof.
  induction entries as [|name rest IH]; [done|].
  rewrite first_match_cons. simpl.
  destruct (covering E aCh aStyle name) as [f|] eqn:Hcov.
  - intros [= ->]. exists 0%nat, name. by rewrite take_0.
  - intros (i & n & Hv & Hi & Hn)%IH. exists (S i), n.
    split_and!; [|done..]. by rewrite Hv.
Qed.

(** ** Lock accounting *)

Lemma locks_held_loop_events_nonneg (E : Collaborators) aCh aStyle entries font :
  0 ≤ locks_held font (loop_events E aCh aStyle entries).
Proof.
  induction entries as [|name rest IH]; [done|]. simpl.
  destruct (GetOrMakeFont E name aStyle) as [f|]; [|done].
  destruct (cairo_ft_scaled_font_lock_face E f) as [face|]; [|done].
  simpl. destruct (charmap face) as [cmap|]; simpl.
  - destruct (cmap aCh =? 0)%N; simpl; destruct (decide (f = font)); lia.
  - destruct (decide (f = font)); lia.
Qed.

Lemma locks_held_loop_events_balanced (E : Collaborators) aCh aStyle entries font :
  forallb (λ name, negb (glyph_missing E aCh aStyle name)) entries = true →
  locks_held font (loop_events E aCh aStyle entries) = 0.
Proof.
  induction entries as [|name rest IH]; [done|]. simpl.
  intros [Hname Hrest]%andb_prop. specialize (IH Hrest).
  unfold glyph_missing in Hname.
  destruct (GetOrMakeFont E name aStyle) as [f|]; [|done].
  destruct (cairo_ft_scaled_font_lock_face E f) as [face|]; [|done].
  simpl. destruct (charmap face) as [cmap|]; simpl.
  - destruct (cmap aCh =? 0)%N; [done|]. simpl.
    destruct (decide (f = font)); lia.
  - destruct (decide (f = font)); lia.
Qed.

Lemma locks_held_loop_events_miss (E : Collaborators) aCh aStyle entries font :
  first_match E aCh aStyle entries = None →
  locks_held font (loop_events E aCh aStyle entries) =
    Z.of_nat (glyph_missing_on E aCh aStyle font entries).
Proof.
  unfold glyph_missing_on.
  induction entries as [|name rest IH]; [done|].
  rewrite first_match_cons.
  destruct (covering E aCh aStyle name) as [?|] eqn:Hcov; [done|].
  intros Hrest. specialize (IH Hrest). rewrite filter_cons.
  cbn [loop_events locks_held]. unfold covering in Hcov.
  destruct (decide (glyph_missing E aCh aStyle name = true
                    ∧ GetOrMakeFont E name aStyle = Some font))
    as [[Hgm Hf]|Hno].
  - unfold glyph_missing in Hgm. rewrite Hf in Hgm |- *.
    destruct (cairo_ft_scaled_font_lock_face E font) as [face|]; [|done].
    destruct (charmap face) as [cmap|]; [|done].
    rewrite Hgm. simpl. rewrite decide_True by done. lia.
  - unfold glyph_missing in Hno.
    destruct (GetOrMakeFont E name aStyle) as [f|]; [|done].
    destruct (cairo_ft_scaled_font_lock_face E f) as [face|]; [|done].
    destruct (charmap face) as [cmap|]; simpl.
    + destruct (cmap aCh =? 0)%N; [|done].
      destruct (decide (f = font)) as [->|Hne]; [|lia].
      by destruct Hno.
    + destruct (decide (f = font)); lia.
Qed.

Lemma FindFontForChar_calls (E : Collaborators) (aCh : N) (aFont : gfxOS2Font)
    (st : State) :
  calls (FindFontForChar E aCh aFont st).2 =
    calls st ++
      (if BitSet.test (mCodepointsWithNoFonts st) aCh then []
       else call_events E aCh aFont).
Proof.
  destruct (BitSet.test (mCodepointsWithNoFonts st) aCh) eqn:Hc.
  - rewrite FindFontForChar_cached by done. by rewrite app_nil_r.
  - by rewrite FindFontForChar_eq.
Qed.

Lemma first_match_None (E : Collaborators) aCh aStyle entries :
  first_match E aCh aStyle entries = None →
  ∀ (i : nat) (name : string),
    entries !! i = Some name → covering E aCh aStyle name = None.
Proof.
  induction entries as [|n rest IH]; [done|].
  rewrite first_match_cons.
  destruct (covering E aCh aStyle n) eqn:Hcov; [done|].
  intros Hrest [|i] name; simpl; [by intros [= <-]|]. by apply IH.
Qed.

Lemma last_cons_nonempty {A} (x : A) (l : list A) :
  l ≠ [] → last (x :: l) = last l.
Proof. by destruct l. Qed.

Lemma loop_events_hit_last (E : Collaborators) aCh aStyle entries font :
  first_match E aCh aStyle entries = Some font →
  last (loop_events E aCh aStyle entries) = Some (Ev_unlock_face font).
Proof.
  induction entries as [|name rest IH]; [done|].
  rewrite first_match_cons. unfold covering. cbn [loop_events].
  assert (Hne : first_match E aCh aStyle rest = Some font →
                loop_events E aCh aStyle rest ≠ []).
  { intros H Hnil. specialize (IH H). by rewrite Hnil in IH. }
  destruct (GetOrMakeFont E name aStyle) as [f|].
  2:{ intros H. rewrite last_cons_nonempty by auto. auto. }
  destruct (cairo_ft_scaled_font_lock_face E f) as [face|].
  2:{ intros H. rewrite !last_cons_nonempty by auto. auto. }
  destruct (charmap face) as [cmap|].
  2:{ intros H. rewrite !last_cons_nonempty by auto. auto. }
  destruct (cmap aCh =? 0)%N.
  - intros H. rewrite !last_cons_nonempty by auto. auto.
  - by intros [= ->].
Qed.

(** ** Completeness of the search *)

(** X1. When the codepoint is not in the set, the catalog call succeeds and
    some entry at an index from 3 on matches, [FindFontForChar] returns a
    font: the instance of a matching entry at the same or an earlier index. *)
Theorem FindFontForChar_finds_existing_match
    (E : Collaborators) (aCh : N) (aFont : gfxOS2Font) (st : State)
    (i : nat) (name : string) (font : gfxOS2Font) :
  BitSet.test (mCodepointsWithNoFonts st) aCh = false →
  NS_SUCCEEDED (catalog_answer E aFont).1 = true →
  (catalog_answer E aFont).2 !! (3 + i)%nat = Some name →
  candidate_matches E aCh (GetStyle aFont) name font →
  ∃ (font' : gfxOS2Font) (j : nat) (name' : string),
    (FindFontForChar E aCh aFont st).1 = Some font' ∧
    (j ≤ i)%nat ∧
    (catalog_answer E aFont).2 !! (3 + j)%nat = Some name' ∧
    candidate_matches E aCh (GetStyle aFont) name' font'.
Proof.
  intros Hc Hok Hi Hm.
  rewrite (FindFontForChar_returns_first_match E aCh aFont st Hc Hok).
  rewrite <- lookup_drop in Hi. apply covering_Some in Hm.
  destruct (first_match E aCh (GetStyle aFont) (drop 3 (catalog_answer E aFont).2))
    as [font'|] eqn:Hfm.
  - apply first_match_Some in Hfm as (j & name' & Hj & Hcov & Hbefore).
    exists font', j, name'. split_and!; [done| |by rewrite <- lookup_drop|].
    + destruct (decide (j ≤ i)%nat) as [|Hgt]; [done|].
      rewrite (Hbefore i name) in Hm by (done || lia). done.
    + by apply covering_Some.
  - rewrite (first_match_None _ _ _ _ Hfm i name Hi) in Hm. done.
Qed.

Lemma FindFontForChar_finds_existing_match_witness :
  ∃ (font' : gfxOS2Font) (j : nat) (name' : string),
    (FindFontForChar catalog_ok 0x41 reference_font fresh).1 = Some font' ∧
    (j ≤ 1)%nat ∧
    (catalog_answer catalog_ok reference_font).2 !! (3 + j)%nat = Some name' ∧
    candidate_matches catalog_ok 0x41 western name' font'.
Proof.
  apply (FindFontForChar_finds_existing_match catalog_ok 0x41 reference_font
           fresh 1 "Times" (mkFont "Times" western)); [reflexivity..|].
  split; [reflexivity|].
  eexists _, _. split_and!; [reflexivity | reflexivity | done].
Defined.

(** ** The bit of the codepoint and the other bits *)

(** X2. After any call of [FindFontForChar] the bit of the requested
    codepoint is set exactly when the call returned no font. *)
Theorem FindFontForChar_bit_iff_miss
    (E : Collaborators) (aCh : N) (aFont : gfxOS2Font) (st : State) :
  BitSet.test (mCodepointsWithNoFonts (FindFontForChar E aCh aFont st).2) aCh
    = true
  ↔ (FindFontForChar E aCh aFont st).1 = None.
Proof.
  destruct (BitSet.test (mCodepointsWithNoFonts st) aCh) eqn:Hc.
  - by rewrite FindFontForChar_cached.
  - rewrite FindFontForChar_eq by done. simpl.
    destruct (search_result E aCh aFont); simpl.
    + rewrite Hc. split; discriminate.
    + split; [done|]. intros _. apply test_set. by left.
Qed.

(** X3. A call of [FindFontForChar] for [aCh] changes no bit other than
    that of [aCh]. *)
Theorem FindFontForChar_frame
    (E : Collaborators) (aCh : N) (aFont : gfxOS2Font) (st : State) (c : N) :
  c ≠ aCh →
  BitSet.test (mCodepointsWithNoFonts (FindFontForChar E aCh aFont st).2) c
    = BitSet.test (mCodepointsWithNoFonts st) c.
Proof.
  intros Hne. destruct (FindFontForChar_cache E aCh aFont st) as [-> | ->];
    [done|].
  destruct (BitSet.test (mCodepointsWithNoFonts st) c) eqn:Hb.
  - apply test_set. by right.
  - apply not_true_is_false. intros [?|?]%test_set; congruence.
Qed.

Lemma FindFontForChar_frame_witness :
  0x42%N ≠ 0x41%N ∧
  BitSet.test
    (mCodepointsWithNoFonts
       (FindFontForChar catalog_down 0x41 reference_font fresh).2) 0x42
    = BitSet.test (mCodepointsWithNoFonts fresh) 0x42.
Proof.
  assert (Hne : 0x42%N ≠ 0x41%N) by discriminate.
  split; [exact Hne|].
  exact (FindFontForChar_frame catalog_down 0x41 reference_font fresh 0x42 Hne).
Defined.

(** ** How far the scan goes *)

(** X4. On a miss after a successful catalog call, [GetOrMakeFont] has been
    asked for every entry from index 3 on, once each and in list order. *)
Theorem FindFontForChar_miss_scans_all
    (E : Collaborators) (aCh : N) (aFont : gfxOS2Font) (st : State) :
  BitSet.test (mCodepointsWithNoFonts st) aCh = false →
  NS_SUCCEEDED (catalog_answer E aFont).1 = true →
  (FindFontForChar E aCh aFont st).1 = None →
  ∃ evs,
    calls (FindFontForChar E aCh aFont st).2 = calls st ++ evs ∧
    looked_up evs = drop 3 (catalog_answer E aFont).2.
Proof.
  intros Hc Hok Hnone. rewrite FindFontForChar_eq in Hnone |- * by done.
  simpl in *. exists (call_events E aCh aFont). split; [done|].
  unfold search_result in Hnone. unfold call_events.
  rewrite Hok in Hnone |- *. simpl.
  rewrite looked_up_loop_events. by apply visited_miss.
Qed.

Lemma FindFontForChar_miss_scans_all_witness :
  ∃ evs,
    calls (FindFontForChar catalog_ok 0xE000 reference_font fresh).2
      = calls fresh ++ evs ∧
    looked_up evs = ["Arial"; "Times"]%string.
Proof.
  apply (FindFontForChar_miss_scans_all catalog_ok 0xE000 reference_font fresh);
    reflexivity.
Defined.

(** X5. When [FindFontForChar] returns a font found at index [3 + i],
    [GetOrMakeFont] has been asked for the entries at indices 3 to [3 + i]
    and for none after it, and the last call made is the unlock of the
    returned font's face. *)
Theorem FindFontForChar_stops_at_match
    (E : Collaborators) (aCh : N) (aFont font : gfxOS2Font) (st : State) :
  (FindFontForChar E aCh aFont st).1 = Some font →
  ∃ (evs : list Event) (i : nat) (name : string),
    calls (FindFontForChar E aCh aFont st).2 = calls st ++ evs ∧
    looked_up evs = take (S i) (drop 3 (catalog_answer E aFont).2) ∧
    (catalog_answer E aFont).2 !! (3 + i)%nat = Some name ∧
    candidate_matches E aCh (GetStyle aFont) name font ∧
    last evs = Some (Ev_unlock_face font).
Proof.
  intros Hres.
  destruct (BitSet.test (mCodepointsWithNoFonts st) aCh) eqn:Hc.
  { by rewrite FindFontForChar_cached in Hres. }
  rewrite FindFontForChar_eq in Hres |- * by done. simpl in *.
  unfold search_result in Hres. unfold call_events.
  destruct (NS_SUCCEEDED (catalog_answer E aFont).1); [|done].
  destruct (visited_hit _ _ _ _ _ Hres) as (i & name & Hv & Hi & Hcov).
  eexists _, i, name. split; [done|]. simpl.
  rewrite looked_up_loop_events, Hv. split_and!; [done| | |].
  - rewrite lookup_drop in Hi. exact Hi.
  - by apply covering_Some.
  - pose proof (loop_events_hit_last _ _ _ _ _ Hres) as Hlast.
    rewrite last_cons_nonempty; [done|].
    intros Hnil. by rewrite Hnil in Hlast.
Qed.

Lemma FindFontForChar_stops_at_match_witness :
  (FindFontForChar catalog_ok 0x41 reference_font fresh).1
    = Some (mkFont "Times" western) ∧
  ∃ (evs : list Event) (i : nat) (name : string),
    calls (FindFontForChar catalog_ok 0x41 reference_font fresh).2
      = calls fresh ++ evs ∧
    looked_up evs = take (S i) (drop 3 (catalog_answer catalog_ok reference_font).2) ∧
    (catalog_answer catalog_ok reference_font).2 !! (3 + i)%nat = Some name ∧
    candidate_matches catalog_ok 0x41 western name (mkFont "Times" western) ∧
    last evs = Some (Ev_unlock_face (mkFont "Times" western)).
Proof.
  assert (Hres : (FindFontForChar catalog_ok 0x41 reference_font fresh).1
                 = Some (mkFont "Times" western)) by reflexivity.
  split; [exact Hres|].
  exact (FindFontForChar_stops_at_match catalog_ok 0x41 reference_font
           (mkFont "Times" western) fresh Hres).
Defined.

(** ** Face locks over a whole lookup *)

(** X6. A call of [FindFontForChar] never gives back more locks on a face
    than it took: for every font the balance after the call is at least the
    balance before it. *)
Theorem FindFontForChar_never_over_unlocks
    (E : Collaborators) (aCh : N) (aFont font : gfxOS2Font) (st : State) :
  locks_held font (calls st)
  ≤ locks_held font (calls (FindFontForChar E aCh aFont st).2).
Proof.
  rewrite FindFontForChar_calls, locks_held_app.
  destruct (BitSet.test (mCodepointsWithNoFonts st) aCh); [simpl; lia|].
  unfold call_events. cbn [locks_held].
  destruct (NS_SUCCEEDED (catalog_answer E aFont).1); [|simpl; lia].
  pose proof (locks_held_loop_events_nonneg E aCh (GetStyle aFont)
                (drop 3 (catalog_answer E aFont).2) font). lia.
Qed.

(** X7. When no entry from index 3 on has a face with a charmap that lacks
    the glyph, a call of [FindFontForChar] leaves the lock balance of every
    font as it found it. *)
Theorem FindFontForChar_locks_balanced
    (E : Collaborators) (aCh : N) (aFont font : gfxOS2Font) (st : State) :
  forallb (λ name, negb (glyph_missing E aCh (GetStyle aFont) name))
    (drop 3 (catalog_answer E aFont).2) = true →
  locks_held font (calls (FindFontForChar E aCh aFont st).2)
    = locks_held font (calls st).
Proof.
  intros Hall. rewrite FindFontForChar_calls, locks_held_app.
  destruct (BitSet.test (mCodepointsWithNoFonts st) aCh); [simpl; lia|].
  unfold call_events. cbn [locks_held].
  destruct (NS_SUCCEEDED (catalog_answer E aFont).1); [|simpl; lia].
  rewrite locks_held_loop_events_balanced by done. lia.
Qed.

Lemma FindFontForChar_locks_balanced_witness :
  forallb (λ name, negb (glyph_missing catalog_times_only 0x41 western name))
    (drop 3 (catalog_answer catalog_times_only reference_font).2) = true ∧
  (FindFontForChar catalog_times_only 0x41 reference_font fresh).1
    = Some (mkFont "Times" western) ∧
  locks_held (mkFont "Times" western)
    (calls (FindFontForChar catalog_times_only 0x41 reference_font fresh).2)
    = locks_held (mkFont "Times" western) (calls fresh).
Proof.
  split; [reflexivity|]. split; [reflexivity|].
  apply (FindFontForChar_locks_balanced catalog_times_only 0x41 reference_font
           (mkFont "Times" western) fresh).
  reflexivity.
Defined.

(** X8. On a miss after a successful catalog call, the lock balance of a
    font has grown by the number of entries from index 3 on whose instance it
    is and whose charmap lacks the glyph: each such entry leaves one lock
    that is not given back. *)
Theorem FindFontForChar_miss_leaves_locks
    (E : Collaborators) (aCh : N) (aFont font : gfxOS2Font) (st : State) :
  BitSet.test (mCodepointsWithNoFonts st) aCh = false →
  NS_SUCCEEDED (catalog_answer E aFont).1 = true →
  (FindFontForChar E aCh aFont st).1 = None →
  locks_held font (calls (FindFontForChar E aCh aFont st).2)
    = locks_held font (calls st)
      + Z.of_nat (glyph_missing_on E aCh (GetStyle aFont) font
                    (drop 3 (catalog_answer E aFont).2)).
Proof.
  intros Hc Hok Hnone. rewrite FindFontForChar_eq in Hnone |- * by done.
  simpl in *. unfold search_result in Hnone. unfold call_events.
  rewrite Hok in Hnone |- *. rewrite locks_held_app. cbn [locks_held].
  by rewrite locks_held_loop_events_miss.
Qed.

Lemma FindFontForChar_miss_leaves_locks_witness :
  (FindFontForChar catalog_ok 0xE000 reference_font fresh).1 = None ∧
  locks_held (mkFont "Arial" western)
    (calls (FindFontForChar catalog_ok 0xE000 reference_font fresh).2)
    = locks_held (mkFont "Arial" western) (calls fresh) + 1.
Proof.
  split; [reflexivity|].
  apply (FindFontForChar_miss_leaves_locks catalog_ok 0xE000 reference_font
           (mkFont "Arial" western) fresh); reflexivity.
Defined.

(** [FindFontForChar_ignores_generic_entries], run on two catalogs that
    differ in their generic entries only. *)
Lemma FindFontForChar_ignores_generic_entries_witness :
  let l1 := ["serif"; "sans-serif"; "monospace"; "Arial"; "Times"]%string in
  let l2 := ["Times"; "Times"; "Times"; "Arial"; "Times"]%string in
  drop 3 l1 = drop 3 l2 ∧
  FindFontForChar
    (mkCollaborators (λ _ _, (NS_OK, l1)) (fc_UpdateFontList catalog_ok)
       (GetOrMakeFont catalog_ok) (cairo_ft_scaled_font_lock_face catalog_ok))
    0x41 reference_font fresh =
  FindFontForChar
    (mkCollaborators (λ _ _, (NS_OK, l2)) (fc_UpdateFontList catalog_ok)
       (GetOrMakeFont catalog_ok) (cairo_ft_scaled_font_lock_face catalog_ok))
    0x41 reference_font fresh.
Proof.
  intros l1 l2.
  assert (Hdrop : drop 3 l1 = drop 3 l2) by reflexivity.
  split; [exact Hdrop|].
  exact (FindFontForChar_ignores_generic_entries catalog_ok NS_OK l1 l2
           0x41 reference_font fresh Hdrop).
Defined.

(** ** Sequences of requests *)

(** X10. Whatever requests are served, a bit that is set afterwards was set
    before, or belongs to a control codepoint, or is the bit of a codepoint
    that was looked up. *)
Theorem serve_all_bits_origin (rs : list Request) (st : State) (c : N) :
  BitSet.test (mCodepointsWithNoFonts (serve_all rs st)) c = true →
  BitSet.test (mCodepointsWithNoFonts st) c = true ∨
  is_control c ∨
  c ∈ requested rs.
Proof.
  revert st. induction rs as [|r rs IH]; intros st; [by left|].
  simpl. intros [Hst | [Hctl | Hreq]]%IH.
  - destruct r as [E aCh aFont|E]; simpl in Hst.
    + destruct (decide (c = aCh)) as [->|Hne].
      * right; right. apply elem_of_cons. by left.
      * left. by rewrite FindFontForChar_frame in Hst.
    + right; left. by apply (UpdateFontList_test E st).
  - by right; left.
  - right; right. destruct r; [apply elem_of_cons; by right | done].
Qed.

Lemma serve_all_bits_origin_witness :
  let rs := [Req_FindFontForChar catalog_ok 0xE000 reference_font;
             Req_UpdateFontList catalog_ok;
             Req_FindFontForChar catalog_down 0x42 reference_font] in
  BitSet.test (mCodepointsWithNoFonts (serve_all rs fresh)) 0x42 = true ∧
  (BitSet.test (mCodepointsWithNoFonts fresh) 0x42 = true ∨
   is_control 0x42 ∨ 0x42%N ∈ requested rs).
Proof.
  intros rs.
  assert (Hset : BitSet.test (mCodepointsWithNoFonts (serve_all rs fresh)) 0x42
                 = true) by reflexivity.
  split; [exact Hset|].
  exact (serve_all_bits_origin rs fresh 0x42 Hset).
Defined.

(** X11. Once the control ranges are set, they stay set over any sequence of
    lookups and refreshes. *)
Theorem serve_all_keeps_controls (rs : list Request) (st : State) :
  (∀ c, is_control c → BitSet.test (mCodepointsWithNoFonts st) c = true) →
  ∀ c, is_control c →
    BitSet.test (mCodepointsWithNoFonts (serve_all rs st)) c = true.
Proof.
  revert st. induction rs as [|r rs IH]; intros st Hst c Hc; [by apply Hst|].
  simpl. apply IH; [|done]. intros d Hd.
  destruct r as [E aCh aFont|E].
  - apply FindFontForChar_keeps_bits. by apply Hst.
  - by apply (UpdateFontList_test E st).
Qed.

Lemma serve_all_keeps_controls_witness :
  let st := (UpdateFontList catalog_down fresh).2 in
  let rs := [Req_FindFontForChar catalog_ok 0x41 reference_font;
             Req_UpdateFontList catalog_ok;
             Req_FindFontForChar catalog_ok 0xE000 reference_font] in
  BitSet.test (mCodepointsWithNoFonts (serve_all rs st)) 0x7f = true.
Proof.
  intros st rs.
  apply (serve_all_keeps_controls rs st).
  - intros c Hc. by apply UpdateFontList_test.
  - right. lia.
Defined.

(** ** Refresh, then lookup *)

(** X12. After a call of [UpdateFontList] a lookup of a codepoint outside the
    control ranges searches again, whatever was cached before: it calls the
    catalog and returns the first match of the entries from index 3 on. *)
Theorem UpdateFontList_reenables_search
    (E E' : Collaborators) (st : State) (aCh : N) (aFont : gfxOS2Font) :
  ¬ is_control aCh →
  let st' := (UpdateFontList E st).2 in
  (FindFontForChar E' aCh aFont st').1 = search_result E' aCh aFont ∧
  calls (FindFontForChar E' aCh aFont st').2
    = calls st ++ Ev_UpdateFontList :: call_events E' aCh aFont.
Proof.
  intros Hctl st'.
  assert (Hc : BitSet.test (mCodepointsWithNoFonts st') aCh = false).
  { apply not_true_is_false. by intros ?%UpdateFontList_test. }
  rewrite FindFontForChar_eq by done. simpl. by rewrite <- app_assoc.
Qed.

Lemma UpdateFontList_reenables_search_witness :
  let st := (FindFontForChar catalog_generic_only 0x41 reference_font fresh).2 in
  ¬ is_control 0x41 ∧
  BitSet.test (mCodepointsWithNoFonts st) 0x41 = true ∧
  (FindFontForChar catalog_ok 0x41 reference_font
     (UpdateFontList catalog_ok st).2).1 = Some (mkFont "Times" western).
Proof.
  intros st.
  assert (Hctl : ¬ is_control 0x41) by (unfold is_control; lia).
  split; [exact Hctl|]. split; [reflexivity|].
  exact (proj1 (UpdateFontList_reenables_search catalog_ok catalog_ok st 0x41
                  reference_font Hctl)).
Defined.

(** X13. On a platform object that has just been constructed no codepoint
    takes the fast path: the first lookup, control codepoints included, calls
    the catalog. *)
Theorem FindFontForChar_after_ctor_calls_catalog
    (E : Collaborators) (sFontconfigUtils_set : bool)
    (aCh : N) (aFont : gfxOS2Font) :
  let st := gfxOS2Platform_ctor sFontconfigUtils_set in
  calls (FindFontForChar E aCh aFont st).2
    = calls st ++ call_events E aCh aFont ∧
  Ev_GetFontList (language (GetStyle aFont)) ""
    ∈ calls (FindFontForChar E aCh aFont st).2.
Proof.
  intros st.
  assert (Hc : BitSet.test (mCodepointsWithNoFonts st) aCh = false).
  { apply test_false. subst st. destruct sFontconfigUtils_set; set_solver. }
  rewrite FindFontForChar_eq by done. simpl. split; [done|].
  apply elem_of_app. right. unfold call_events. apply elem_of_cons. by left.
Qed.

(** * Further properties of the surface allocator *)

(** X14. For a fixed width and content type with a non-negative stride, and
    heights [0 <= h1 <= h2] such that the byte size [stride * h2] of the
    taller surface fits [int], the choice is monotone in the height: if the
    surface of [h2] rows is an image surface, so is the one of [h1] rows, and
    if the surface of [h1] rows is a native surface, so is the one of [h2]
    rows. *)
Theorem CreateOffscreenSurface_monotone
    (OptimalFormatForContent : gfxContentType → gfxImageFormat)
    (cairo_format_stride_for_width : gfxImageFormat → Z → Z)
    (contentType : gfxContentType) (w h1 h2 : Z) :
  let stride :=
    cairo_format_stride_for_width (OptimalFormatForContent contentType) w in
  let surf h :=
    CreateOffscreenSurface OptimalFormatForContent
      cairo_format_stride_for_width (mkSize w h) contentType in
  0 ≤ stride → 0 ≤ h1 ≤ h2 → stride * h2 ≤ INT_MAX →
  (backend (surf h2) = Lightweight → backend (surf h1) = Lightweight) ∧
  (backend (surf h1) = Native → backend (surf h2) = Native).
Proof.
  intros stride surf Hs Hh Hfit. unfold INT_MAX in Hfit.
  assert (H1 : int_mul stride h1 = stride * h1)
    by (apply int_mul_exact; unfold INT_MIN, INT_MAX; nia).
  assert (H2 : int_mul stride h2 = stride * h2)
    by (apply int_mul_exact; unfold INT_MIN, INT_MAX; nia).
  subst surf. unfold CreateOffscreenSurface. simpl. fold stride.
  rewrite H1, H2.
  destruct (Z.leb_spec (stride * h1) 4096), (Z.leb_spec (stride * h2) 4096);
    simpl; split; try done; nia.
Qed.

Lemma CreateOffscreenSurface_monotone_witness :
  backend (CreateOffscreenSurface sample_format sample_stride
             (mkSize 64 64) CONTENT_ALPHA) = Lightweight ∧
  backend (CreateOffscreenSurface sample_format sample_stride
             (mkSize 64 10) CONTENT_ALPHA) = Lightweight.
Proof.
  assert (Hbig : backend (CreateOffscreenSurface sample_format sample_stride
                            (mkSize 64 64) CONTENT_ALPHA) = Lightweight)
    by reflexivity.
  split; [exact Hbig|].
  refine (proj1 (CreateOffscreenSurface_monotone sample_format sample_stride
                   CONTENT_ALPHA 64 10 64 _ _ _) Hbig).
  - vm_compute. discriminate.
  - lia.
  - vm_compute. discriminate.
Defined.

(** X15. A request of zero height, or one for which the stride function
    reports a non-positive stride (as cairo does for a format or width it
    rejects) with a non-negative height, is not refused: it is served by an
    image surface of the requested size and optimal format. *)
Theorem CreateOffscreenSurface_degenerate
    (OptimalFormatForContent : gfxContentType → gfxImageFormat)
    (cairo_format_stride_for_width : gfxImageFormat → Z → Z)
    (aSize : gfxIntSize) (contentType : gfxContentType) :
  let format := OptimalFormatForContent contentType in
  let stride := cairo_format_stride_for_width format (width aSize) in
  height aSize = 0 ∨
  (stride ≤ 0 ∧ 0 ≤ height aSize ∧ INT_MIN ≤ stride * height aSize) →
  CreateOffscreenSurface OptimalFormatForContent
    cairo_format_stride_for_width aSize contentType
  = gfxImageSurface aSize format.
Proof.
  intros format stride Hcase. unfold CreateOffscreenSurface.
  fold format. fold stride.
  assert (Hle : int_mul stride (height aSize) ≤ 4096).
  { destruct Hcase as [Hz | (Hs & Hh & Hmin)].
    - rewrite Hz. unfold int_mul. rewrite Z.mul_0_r. vm_compute. discriminate.
    - rewrite int_mul_exact; [nia|]. unfold INT_MIN, INT_MAX in *. nia. }
  apply Z.leb_le in Hle. by rewrite Hle.
Qed.

Lemma CreateOffscreenSurface_degenerate_witness :
  CreateOffscreenSurface sample_format sample_stride
    (mkSize 640 480) CONTENT_COLOR
  = gfxOS2Surface (mkSize 640 480) ImageFormatRGB24 ∧
  CreateOffscreenSurface sample_format (λ _ _, -1)
    (mkSize 640 480) CONTENT_COLOR
  = gfxImageSurface (mkSize 640 480) ImageFormatRGB24.
Proof.
  split; [reflexivity|].
  apply (CreateOffscreenSurface_degenerate sample_format (λ _ _, -1)
           (mkSize 640 480) CONTENT_COLOR).
  right. simpl. unfold INT_MIN. lia.
Defined.

(** * Construction and destruction *)

Lemma count_call_app (c : Lifecycle.LibCall) (l1 l2 : list Lifecycle.LibCall) :
  Lifecycle.count_call c (l1 ++ l2)
  = (Lifecycle.count_call c l1 + Lifecycle.count_call c l2)%nat.
Proof. unfold Lifecycle.count_call. by rewrite filter_app, length_app. Qed.

Lemma count_op_cons (o op : Lifecycle.Op) (ops : list Lifecycle.Op) :
  Lifecycle.count_op o (op :: ops)
  = ((if decide (op = o) then 1 else 0) + Lifecycle.count_op o ops)%nat.
Proof.
  unfold Lifecycle.count_op. rewrite filter_cons. by destruct (decide (op = o)).
Qed.

(** What one operation adds to the log. *)
Lemma lifecycle_step_counts
    (utils : option N) (p : Lifecycle.Process) (op : Lifecycle.Op) :
  let before := Lifecycle.lib_calls p in
  let after := Lifecycle.lib_calls (Lifecycle.step utils p op) in
  let constructs := if decide (op = Lifecycle.Construct) then 1%nat else 0%nat in
  let destroys := if decide (op = Lifecycle.Destroy) then 1%nat else 0%nat in
  (Lifecycle.count_call Lifecycle.cairo_os2_init after
   = Lifecycle.count_call Lifecycle.cairo_os2_init before + constructs)%nat ∧
  (Lifecycle.count_call Lifecycle.cairo_os2_fini after
   = Lifecycle.count_call Lifecycle.cairo_os2_fini before + destroys)%nat ∧
  (Lifecycle.count_call Lifecycle.Shutdown after
   = Lifecycle.count_call Lifecycle.Shutdown before + destroys)%nat ∧
  (Lifecycle.count_call Lifecycle.GetFontconfigUtils after
   ≤ Lifecycle.count_call Lifecycle.GetFontconfigUtils before + constructs)%nat.
Proof.
  destruct op; simpl.
  - unfold Lifecycle.ctor.
    destruct (Lifecycle.sFontconfigUtils p); simpl;
      rewrite !count_call_app; cbv [Lifecycle.count_call]; simpl; lia.
  - rewrite !count_call_app. cbv [Lifecycle.count_call]. simpl. lia.
Qed.

(** X16. Over any sequence of constructions and destructions, every
    construction initialises cairo once and every destruction shuts the
    fontconfig utilities down and finalises cairo once; the utilities are
    fetched at most once per construction. *)
Theorem lifecycle_calls_balanced
    (utils : option N) (ops : list Lifecycle.Op) (p : Lifecycle.Process) :
  let before := Lifecycle.lib_calls p in
  let after := Lifecycle.lib_calls (Lifecycle.run utils ops p) in
  (Lifecycle.count_call Lifecycle.cairo_os2_init after
   = Lifecycle.count_call Lifecycle.cairo_os2_init before
     + Lifecycle.count_op Lifecycle.Construct ops)%nat ∧
  (Lifecycle.count_call Lifecycle.cairo_os2_fini after
   = Lifecycle.count_call Lifecycle.cairo_os2_fini before
     + Lifecycle.count_op Lifecycle.Destroy ops)%nat ∧
  (Lifecycle.count_call Lifecycle.Shutdown after
   = Lifecycle.count_call Lifecycle.Shutdown before
     + Lifecycle.count_op Lifecycle.Destroy ops)%nat ∧
  (Lifecycle.count_call Lifecycle.GetFontconfigUtils after
   ≤ Lifecycle.count_call Lifecycle.GetFontconfigUtils before
     + Lifecycle.count_op Lifecycle.Construct ops)%nat.
Proof.
  revert p. induction ops as [|op ops IH]; intros p.
  { simpl. unfold Lifecycle.count_op. simpl. lia. }
  destruct (IH (Lifecycle.step utils p op)) as (Hi & Hf & Hs & Hg).
  destruct (lifecycle_step_counts utils p op) as (Si & Sf & Ss & Sg).
  cbv zeta. unfold Lifecycle.run in *. cbn [foldl].
  rewrite !count_op_cons. lia.
Qed.

(** X17. Provided the utilities can be fetched, after any non-empty sequence
    of constructions and destructions the static pointer [sFontconfigUtils]
    is set exactly when the last operation was a construction: a destruction
    clears it however many platform objects were constructed before. *)
Theorem lifecycle_pointer_follows_last_op
    (u : N) (ops : list Lifecycle.Op) (op : Lifecycle.Op)
    (p : Lifecycle.Process) :
  is_Some (Lifecycle.sFontconfigUtils (Lifecycle.run (Some u) (ops ++ [op]) p))
  ↔ op = Lifecycle.Construct.
Proof.
  unfold Lifecycle.run. rewrite foldl_snoc.
  destruct op; simpl.
  - unfold Lifecycle.ctor.
    destruct (Lifecycle.sFontconfigUtils (foldl (Lifecycle.step (Some u)) p ops));
      simpl; split; eauto.
  - split; [by intros [? ?]|done].
Qed.

(** * Further properties: what a caller can and cannot observe *)

(** X18. A failed catalog call is indistinguishable from a successful one
    that lists no concrete family: the result and the whole state after the
    lookup are the same as with a catalog that answers with at most three
    entries. *)
Theorem FindFontForChar_failure_as_empty_catalog
    (E1 E2 : Collaborators) (aCh : N) (aFont : gfxOS2Font) (st : State) :
  NS_SUCCEEDED (catalog_answer E1 aFont).1 = false →
  (length (catalog_answer E2 aFont).2 ≤ 3)%nat →
  FindFontForChar E1 aCh aFont st = FindFontForChar E2 aCh aFont st.
Proof.
  intros Hfail Hlen.
  destruct (BitSet.test (mCodepointsWithNoFonts st) aCh) eqn:Hc.
  { by rewrite !FindFontForChar_cached. }
  rewrite !FindFontForChar_eq by done.
  unfold search_result, call_events. rewrite Hfail.
  rewrite (drop_ge (catalog_answer E2 aFont).2 3) by done.
  by destruct (NS_SUCCEEDED (catalog_answer E2 aFont).1).
Qed.

Lemma FindFontForChar_failure_as_empty_catalog_witness :
  NS_SUCCEEDED (catalog_answer catalog_down reference_font).1 = false ∧
  NS_SUCCEEDED (catalog_answer catalog_generic_only reference_font).1 = true ∧
  FindFontForChar catalog_down 0x41 reference_font fresh
  = FindFontForChar catalog_generic_only 0x41 reference_font fresh.
Proof.
  split; [reflexivity|]. split; [reflexivity|].
  apply (FindFontForChar_failure_as_empty_catalog catalog_down
           catalog_generic_only 0x41 reference_font fresh).
  - reflexivity.
  - vm_compute. lia.
Defined.

(** X19. Over a sequence of lookups the set of codepoints with no font
    grows by at most one codepoint per lookup. *)
Theorem serve_all_size_bound (rs : list Request) (st : State) :
  forallb is_FindFontForChar rs = true →
  (size (mCodepointsWithNoFonts (serve_all rs st))
   ≤ size (mCodepointsWithNoFonts st) + length rs)%nat.
Proof.
  revert st. induction rs as [|r rs IH]; intros st Hall; [simpl; lia|].
  simpl in Hall. apply andb_prop in Hall as [Hr Hrs].
  destruct r as [E aCh aFont|E]; [|done]. simpl.
  specialize (IH (FindFontForChar E aCh aFont st).2 Hrs).
  assert (Hstep : (size (mCodepointsWithNoFonts (FindFontForChar E aCh aFont st).2)
                   ≤ S (size (mCodepointsWithNoFonts st)))%nat); [|lia].
  destruct (FindFontForChar_cache E aCh aFont st) as [-> | ->]; [lia|].
  unfold BitSet.set. rewrite size_union_alt, size_singleton.
  assert (Hdiff : (size (mCodepointsWithNoFonts st ∖ {[aCh]})
                   ≤ size (mCodepointsWithNoFonts st))%nat); [|lia].
  apply subseteq_size. intros x [Hx _]%elem_of_difference. exact Hx.
Qed.

Lemma serve_all_size_bound_witness :
  let rs := [Req_FindFontForChar catalog_ok 0xE000 reference_font;
             Req_FindFontForChar catalog_ok 0x41 reference_font;
             Req_FindFontForChar catalog_ok 0xE000 reference_font] in
  forallb is_FindFontForChar rs = true ∧
  (size (mCodepointsWithNoFonts (serve_all rs fresh))
   ≤ size (mCodepointsWithNoFonts fresh) + 3)%nat.
Proof.
  intros rs. split; [reflexivity|].
  exact (serve_all_size_bound rs fresh eq_refl).
Defined.

(** X20. A successful lookup is not remembered: repeating it with the same
    collaborators returns the same font, leaves the set as it is, and makes
    the same calls over again. *)
Theorem FindFontForChar_hit_repeats_search
    (E : Collaborators) (aCh : N) (aFont font : gfxOS2Font) (st : State) :
  (FindFontForChar E aCh aFont st).1 = Some font →
  let st1 := (FindFontForChar E aCh aFont st).2 in
  FindFontForChar E aCh aFont st1 =
    (Some font,
     mkState (mCodepointsWithNoFonts st)
       (calls st ++ call_events E aCh aFont ++ call_events E aCh aFont)) ∧
  call_events E aCh aFont ≠ [].
Proof.
  intros Hres st1. subst st1.
  destruct (BitSet.test (mCodepointsWithNoFonts st) aCh) eqn:Hc.
  { by rewrite FindFontForChar_cached in Hres. }
  rewrite (FindFontForChar_eq E aCh aFont st Hc) in Hres |- *. simpl in Hres.
  rewrite Hres. simpl. rewrite FindFontForChar_eq by done. simpl.
  rewrite Hres. by rewrite <- app_assoc.
Qed.

Lemma FindFontForChar_hit_repeats_search_witness :
  (FindFontForChar catalog_ok 0x41 reference_font fresh).1
    = Some (mkFont "Times" western) ∧
  (FindFontForChar catalog_ok 0x41 reference_font
     (FindFontForChar catalog_ok 0x41 reference_font fresh).2).1
    = Some (mkFont "Times" western).
Proof.
  assert (Hres : (FindFontForChar catalog_ok 0x41 reference_font fresh).1
                 = Some (mkFont "Times" western)) by reflexivity.
  split; [exact Hres|].
  exact (f_equal fst
           (proj1 (FindFontForChar_hit_repeats_search catalog_ok 0x41
                     reference_font (mkFont "Times" western) fresh Hres))).
Defined.
